(** * ImageViewer: a model of [examples/.../main.py] and its verification

  The program is one PySide6 widget, [ImageViewer(QGraphicsView)].  Its
  methods are embedded below as functions on an explicit widget state;
  the toolkit objects they call (view transform, scene, animation) are
  modelled in [Qt] after the toolkit's documented behaviour.

  Number model.  Python floats are modelled as exact rationals [Q]
  (no rounding, no NaN, no infinities); comparisons are decided on the
  rational value.  Python's [ZeroDivisionError] is kept: division is
  fallible.  The two float expressions on which the divergences found
  below rest are evaluated a second time on IEEE binary64 values, in
  [Binary64]. *)

From Stdlib Require Import ZArith QArith Qround Lia Lqa List Bool PrimFloat.
Import ListNotations.
Local Open Scope Q_scope.

(* ================================================================== *)
(** ** Python expressions used by the program *)

Module Py.

Inductive exn : Set := ZeroDivisionError.

(** A call either returns or raises. *)
Inductive result (A : Type) : Type :=
| Ok (a : A)
| Raise (e : exn).
Arguments Ok {A} a.
Arguments Raise {A} e.

Definition bind {A B} (c : result A) (k : A -> result B) : result B :=
  match c with
  | Ok a => k a
  | Raise e => Raise e
  end.

(** [a < b] and [a == b] on floats. *)
Definition ltb (a b : Q) : bool := (Qnum a * QDen b <? Qnum b * QDen a)%Z.
Definition eqb (a b : Q) : bool := Qeq_bool a b.

(** [a / b]: true division raises when the divisor is zero. *)
Definition truediv (a b : Q) : result Q :=
  if eqb b 0 then Raise ZeroDivisionError else Ok (a / b).

(** [bool(None)]. *)
Definition bool_of_None : bool := false.

(** [max(a, b)] keeps its first argument unless the second is strictly
    larger; [min(a, b)] keeps it unless the second is strictly smaller. *)
Definition max (a b : Q) : Q := if ltb a b then b else a.
Definition min (a b : Q) : Q := if ltb b a then b else a.

End Py.

Notation "x <- c ;; k" := (Py.bind c (fun x => k))
(at level 61, c at next level, right associativity).

(* ================================================================== *)
(** ** The toolkit objects the widget uses *)

Module Qt.

Record QPoint : Set := mkQPoint { px : Z; py : Z }.
Record QPointF : Set := mkQPointF { fx : Q; fy : Q }.

(** [QPoint()] is the origin. *)
Definition QPoint0 : QPoint := mkQPoint 0 0.

Definition toPointF (p : QPoint) : QPointF :=
  mkQPointF (inject_Z (px p)) (inject_Z (py p)).

(** [qRound]: nearest integer, halves away from zero. *)
Definition qRound (d : Q) : Z :=
  if Qle_bool 0 d then Qfloor (d + (1 # 2)) else Qceiling (d - (1 # 2)).

(** [QPointF.toPoint()]. *)
Definition toPoint (p : QPointF) : QPoint :=
  mkQPoint (qRound (fx p)) (qRound (fy p)).

(** [a - b] on points. *)
Definition psub (a b : QPointF) : QPointF :=
  mkQPointF (fx a - fx b) (fy a - fy b).

(** Equality of points up to the value of their coordinates. *)
Definition peq (a b : QPointF) : Prop := fx a == fx b /\ fy a == fy b.

Record QRectF : Set := mkQRectF { rx : Q; ry : Q; rw : Q; rh : Q }.

(** [QRectF()] and [isNull()]: width and height both zero. *)
Definition QRectF0 : QRectF := mkQRectF 0 0 0 0.
Definition isNull (r : QRectF) : bool :=
  Py.eqb (rw r) 0 && Py.eqb (rh r) 0.
(** [isEmpty()]: no area. *)
Definition isEmpty (r : QRectF) : bool :=
  Qle_bool (rw r) 0 || Qle_bool (rh r) 0.

(** [a | b], the bounding rectangle of two rectangles of non-negative
    size; a null operand is ignored. *)
Definition united (a b : QRectF) : QRectF :=
  if isNull a then b
  else if isNull b then a
  else
    let l := Py.min (rx a) (rx b) in
    let t := Py.min (ry a) (ry b) in
    let r := Py.max (rx a + rw a) (rx b + rw b) in
    let bt := Py.max (ry a + rh a) (ry b + rh b) in
    mkQRectF l t (r - l) (bt - t).

(** The view only ever composes scalings and translations, so the
    matrix stays in the toolkit's scale-and-translate class: the
    off-diagonal coefficients are zero and are not stored. *)
Record QTransform : Set :=
  mkQTransform { m11 : Q; m22 : Q; dx : Q; dy : Q }.

Definition identity : QTransform := mkQTransform 1 1 0 0.

(** [QTransform.scale(sx, sy)]: scales the coordinate system. *)
Definition scale (sx sy : Q) (t : QTransform) : QTransform :=
  mkQTransform (m11 t * sx) (m22 t * sy) (dx t) (dy t).

(** [QTransform.translate(tx, ty)]: moves the coordinate system. *)
Definition translate (tx ty : Q) (t : QTransform) : QTransform :=
  mkQTransform (m11 t) (m22 t) (dx t + tx * m11 t) (dy t + ty * m22 t).

(** [QTransform.map(p)]. *)
Definition map (t : QTransform) (p : QPointF) : QPointF :=
  mkQPointF (m11 t * fx p + dx t) (m22 t * fy p + dy t).

Definition invertible (t : QTransform) : bool :=
  negb (Py.eqb (m11 t) 0) && negb (Py.eqb (m22 t) 0).

(** [QTransform.inverted()]: the identity when the matrix is singular. *)
Definition inverted (t : QTransform) : QTransform :=
  if invertible t then
    mkQTransform (/ m11 t) (/ m22 t) (- dx t * / m11 t) (- dy t * / m22 t)
  else identity.

(** [QTransform.mapRect(r)] for a rectangle of non-negative size. *)
Definition mapRect (t : QTransform) (r : QRectF) : QRectF :=
  let w := m11 t * rw r in
  let h := m22 t * rh r in
  let x := m11 t * rx r + dx t in
  let y := m22 t * ry r + dy t in
  mkQRectF (if Py.ltb w 0 then x + w else x)
           (if Py.ltb h 0 then y + h else y)
           (if Py.ltb w 0 then - w else w)
           (if Py.ltb h 0 then - h else h).

(** [QPixmap(filename)]: null when the file cannot be decoded,
    otherwise a bitmap of positive size. *)
Inductive QPixmap : Set :=
| NullPixmap
| Pixmap (w h : positive).

Definition pixmapIsNull (p : QPixmap) : bool :=
  match p with NullPixmap => true | Pixmap _ _ => false end.

Inductive TransformationMode : Set :=
  FastTransformation | SmoothTransformation.

(** [QGraphicsPixmapItem(pixmap)], placed at the scene origin. *)
Record QGraphicsPixmapItem : Set := mkItem {
  item_pixmap : QPixmap;
  transformationMode : TransformationMode
}.

Definition newItem (p : QPixmap) : QGraphicsPixmapItem :=
  mkItem p FastTransformation.

Definition setTransformationMode (m : TransformationMode)
    (i : QGraphicsPixmapItem) : QGraphicsPixmapItem :=
  mkItem (item_pixmap i) m.

Definition boundingRect (i : QGraphicsPixmapItem) : QRectF :=
  match item_pixmap i with
  | NullPixmap => QRectF0
  | Pixmap w h => mkQRectF 0 0 (inject_Z (Zpos w)) (inject_Z (Zpos h))
  end.

(** [QGraphicsScene]: its items, and its scene rectangle.  The scene
    rectangle is never set by the program, so it is the largest
    bounding rectangle of all items since the scene was created: it
    grows when an item is added and never shrinks, not even on
    [clear()]. *)
Record QGraphicsScene : Set := mkScene {
  items : list QGraphicsPixmapItem;
  growingRect : QRectF
}.

Definition newScene : QGraphicsScene := mkScene [] QRectF0.

Definition clear (sc : QGraphicsScene) : QGraphicsScene :=
  mkScene [] (growingRect sc).

Definition addItem (i : QGraphicsPixmapItem) (sc : QGraphicsScene)
    : QGraphicsScene :=
  mkScene (items sc ++ [i]) (united (growingRect sc) (boundingRect i)).

Inductive AnimState : Set := Stopped | Paused | Running.

Definition AnimState_eqb (a b : AnimState) : bool :=
  match a, b with
  | Stopped, Stopped | Paused, Paused | Running, Running => true
  | _, _ => false
  end.

(** [QVariantAnimation]: a passive object here.  Its ticks are
    delivered later by the event loop (see [ImageViewer.event]). *)
Record QVariantAnimation : Set := mkAnim {
  state : AnimState;
  startValue : option Q;
  endValue : option Q
}.

Definition newAnim : QVariantAnimation := mkAnim Stopped None None.

Definition stop (a : QVariantAnimation) : QVariantAnimation :=
  mkAnim Stopped (startValue a) (endValue a).
Definition start (a : QVariantAnimation) : QVariantAnimation :=
  mkAnim Running (startValue a) (endValue a).
Definition setStartValue (v : Q) (a : QVariantAnimation)
    : QVariantAnimation :=
  mkAnim (state a) (Some v) (endValue a).
Definition setEndValue (v : Q) (a : QVariantAnimation)
    : QVariantAnimation :=
  mkAnim (state a) (startValue a) (Some v).

Inductive ViewportAnchor : Set :=
  NoAnchor | AnchorViewCenter | AnchorUnderMouse.

Record QWheelEvent : Set := mkWheel {
  angleDelta : QPoint;
  position : QPointF
}.

End Qt.

(* ================================================================== *)
(** ** The widget *)

Module ImageViewer.
Import Py Qt.

(** The two lines the program prints. *)
Inductive Msg : Set :=
| MsgNoScaling      (* "ratios equal, no scaling needed" *)
| MsgCannotShrink.  (* "cannot zoom out" *)

(** The viewport margins set in [__init__]: -2 on every side. *)
Definition viewportMargin : Z := (-2)%Z.

(** The widget's own fields, followed by the part of the inherited
    [QGraphicsView] that the methods read or write. *)
Record State : Set := mkState {
  zoom_total : Q;
  zoom_origin : QPoint;
  zoom_scene_origin : QPointF;
  pixmap : option QGraphicsPixmapItem;
  zoom_anim : QVariantAnimation;
  (* inherited *)
  transform : QTransform;
  scene : QGraphicsScene;
  width : Z;
  height : Z;
  transformationAnchor : ViewportAnchor;
  (* console *)
  stdout : list Msg
}.

(** [__init__], for a window of the given size. *)
Definition init (w h : Z) : State :=
  mkState 1 QPoint0 (toPointF QPoint0) None newAnim
          identity newScene w h AnchorViewCenter [].

Definition set_zoom_total (v : Q) (s : State) : State :=
  mkState v (zoom_origin s) (zoom_scene_origin s) (pixmap s) (zoom_anim s)
          (transform s) (scene s) (width s) (height s)
          (transformationAnchor s) (stdout s).

Definition set_zoom_origin (p : QPoint) (s : State) : State :=
  mkState (zoom_total s) p (zoom_scene_origin s) (pixmap s) (zoom_anim s)
          (transform s) (scene s) (width s) (height s)
          (transformationAnchor s) (stdout s).

Definition set_zoom_scene_origin (p : QPointF) (s : State) : State :=
  mkState (zoom_total s) (zoom_origin s) p (pixmap s) (zoom_anim s)
          (transform s) (scene s) (width s) (height s)
          (transformationAnchor s) (stdout s).

Definition set_pixmap (i : option QGraphicsPixmapItem) (s : State) : State :=
  mkState (zoom_total s) (zoom_origin s) (zoom_scene_origin s) i (zoom_anim s)
          (transform s) (scene s) (width s) (height s)
          (transformationAnchor s) (stdout s).

Definition upd_anim (f : QVariantAnimation -> QVariantAnimation)
    (s : State) : State :=
  mkState (zoom_total s) (zoom_origin s) (zoom_scene_origin s) (pixmap s)
          (f (zoom_anim s))
          (transform s) (scene s) (width s) (height s)
          (transformationAnchor s) (stdout s).

Definition upd_transform (f : QTransform -> QTransform) (s : State) : State :=
  mkState (zoom_total s) (zoom_origin s) (zoom_scene_origin s) (pixmap s)
          (zoom_anim s)
          (f (transform s)) (scene s) (width s) (height s)
          (transformationAnchor s) (stdout s).

Definition upd_scene (f : QGraphicsScene -> QGraphicsScene) (s : State)
    : State :=
  mkState (zoom_total s) (zoom_origin s) (zoom_scene_origin s) (pixmap s)
          (zoom_anim s)
          (transform s) (f (scene s)) (width s) (height s)
          (transformationAnchor s) (stdout s).

Definition set_size (w h : Z) (s : State) : State :=
  mkState (zoom_total s) (zoom_origin s) (zoom_scene_origin s) (pixmap s)
          (zoom_anim s)
          (transform s) (scene s) w h
          (transformationAnchor s) (stdout s).

Definition setTransformationAnchor (a : ViewportAnchor) (s : State) : State :=
  mkState (zoom_total s) (zoom_origin s) (zoom_scene_origin s) (pixmap s)
          (zoom_anim s)
          (transform s) (scene s) (width s) (height s)
          a (stdout s).

(** [print(m)]. *)
Definition print (m : Msg) (s : State) : State :=
  mkState (zoom_total s) (zoom_origin s) (zoom_scene_origin s) (pixmap s)
          (zoom_anim s)
          (transform s) (scene s) (width s) (height s)
          (transformationAnchor s) (stdout s ++ [m]).

(** *** Inherited [QGraphicsView] methods *)

Definition resetTransform : State -> State := upd_transform (fun _ => identity).
Definition view_scale (sx sy : Q) : State -> State :=
  upd_transform (Qt.scale sx sy).
Definition view_translate (tx ty : Q) : State -> State :=
  upd_transform (Qt.translate tx ty).

(** [mapToScene(p)]: the view point taken through the inverted view
    transform (the viewport is not scrolled). *)
Definition mapToScene (s : State) (p : QPoint) : QPointF :=
  Qt.map (inverted (transform s)) (toPointF p).

(** [sceneRect()]: the scene's rectangle, as no view rectangle is set. *)
Definition sceneRect (s : State) : QRectF := growingRect (scene s).

(** [viewport().rect()]: the widget without its (negative) margins. *)
Definition viewportRect (s : State) : QRectF :=
  mkQRectF 0 0 (inject_Z (width s - 2 * viewportMargin))
               (inject_Z (height s - 2 * viewportMargin)).

(** [fitInView(item, KeepAspectRatio)]: brings the view scale back to
    1:1, then scales by the smaller of the two ratios between the
    viewport (less a margin of 2 on every side) and the item's
    rectangle.  Does nothing on a null rectangle or an empty viewport. *)
Definition fitInView (i : QGraphicsPixmapItem) (s : State) : State :=
  let rect := boundingRect i in
  if isNull rect then s
  else
    let unity := mapRect (transform s) (mkQRectF 0 0 1 1) in
    if isEmpty unity then s
    else
      let s1 := view_scale (/ rw unity) (/ rh unity) s in
      let vp := viewportRect s1 in
      let viewRect := mkQRectF (rx vp + 2) (ry vp + 2)
                               (rw vp - 4) (rh vp - 4) in
      if isEmpty viewRect then s1
      else
        let sr := mapRect (transform s1) rect in
        if isEmpty sr then s1
        else
          let r := Py.min (rw viewRect / rw sr) (rh viewRect / rh sr) in
          view_scale r r s1.

(** *** The methods of [ImageViewer] *)

(** [m11()]. *)
Definition m11 (s : State) : Q := Qt.m11 (transform s).

(** [ratio()]. *)
Definition ratio (s : State) : result Q :=
  let scene := sceneRect s in
  pw <- truediv (inject_Z (width s)) (rw scene) ;;
  ph <- truediv (inject_Z (height s)) (rh scene) ;;
  Ok (Py.min pw ph).

(** [loadImage(filename)]; [decoded] is what [QPixmap(filename)] yields. *)
Definition loadImage (decoded : QPixmap) (s : State) : result State :=
  if pixmapIsNull decoded then Ok s
  else
    let s := set_zoom_total 1 s in
    let s := resetTransform s in
    let s := upd_scene clear s in
    let item := newItem decoded in
    let item := setTransformationMode SmoothTransformation item in
    let s := set_pixmap (Some item) s in
    let s := upd_scene (addItem item) s in
    r <- ratio s ;;
    if Py.ltb r 1 then Ok (fitInView item s) else Ok s.

(** [__on_zoom(value)], the slot of the animation's [valueChanged]. *)
Definition __on_zoom (value : Q) (s : State) : result State :=
  factor <- truediv value (zoom_total s) ;;
  if Py.eqb factor (zoom_total s) then Ok (print MsgNoScaling s)
  else
    let s := set_zoom_total value s in
    let s := view_scale factor factor s in
    let delta := psub (mapToScene s (zoom_origin s)) (zoom_scene_origin s) in
    Ok (view_translate (fx delta) (fy delta) s).

(** [zoom(factor)].  [stop()] returns [None], which is falsy: the test
    [not self.zoom_anim.stop() and running] stops the animation and
    then holds exactly when it was running. *)
Definition zoom (factor : Q) (s : State) : State :=
  let running := AnimState_eqb (state (zoom_anim s)) Running in
  let s := upd_anim stop s in
  let factor :=
    if negb Py.bool_of_None && running then factor * factor else factor in
  let s := upd_anim (setStartValue (zoom_total s)) s in
  let s := upd_anim (setEndValue (Py.max 1 (zoom_total s * factor))) s in
  upd_anim start s.

(** [wheelEvent(e)]. *)
Definition wheelEvent (e : QWheelEvent) (s : State) : State :=
  let angle := py (angleDelta e) in
  if (angle <? 0)%Z && Py.eqb (zoom_total s) 1 then print MsgCannotShrink s
  else
    let s := set_zoom_origin (toPoint (position e)) s in
    let s := set_zoom_scene_origin (mapToScene s (zoom_origin s)) s in
    zoom (if (angle >? 0)%Z then 11 # 10 else 9 # 10) s.

(** [resizeEvent(e)]; the widget already has its new size, and the
    inherited handler leaves the transform alone. *)
Definition resizeEvent (s : State) : result State :=
  match pixmap s with
  | None => Ok s
  | Some _ =>
      r <- ratio s ;;
      factor <- truediv (r * zoom_total s) (m11 s) ;;
      Ok (view_scale factor factor s)
  end.

(** [enterEvent(e)] and [leaveEvent(e)]. *)
Definition enterEvent (s : State) : State :=
  setTransformationAnchor NoAnchor s.
Definition leaveEvent (s : State) : State :=
  setTransformationAnchor AnchorUnderMouse s.

(** *** The event loop

    What the toolkit delivers to the widget.  A tick is a
    [valueChanged(v)] of the zoom animation. *)
Inductive event : Set :=
| EvLoadImage (decoded : QPixmap)
| EvWheel (e : QWheelEvent)
| EvZoom (factor : Q)
| EvTick (v : Q)
| EvFinished
| EvResize (w h : Z)
| EvEnter
| EvLeave.

(** [v] lies between [a] and [b], whichever is the larger. *)
Definition between (a b v : Q) : bool :=
  (Qle_bool a v && Qle_bool v b) || (Qle_bool b v && Qle_bool v a).

(** What the toolkit can deliver in a state: the animation ticks only
    while it runs, with a value interpolated between its start and end
    values; a window has a positive size. *)
Definition deliverable (s : State) (ev : event) : bool :=
  match ev with
  | EvTick v =>
      AnimState_eqb (state (zoom_anim s)) Running &&
      match startValue (zoom_anim s), endValue (zoom_anim s) with
      | Some a, Some b => between a b v
      | _, _ => false
      end
  | EvFinished => AnimState_eqb (state (zoom_anim s)) Running
  | EvResize w h => (0 <? w)%Z && (0 <? h)%Z
  | _ => true
  end.

Definition dispatch (ev : event) (s : State) : result State :=
  match ev with
  | EvLoadImage decoded => loadImage decoded s
  | EvWheel e => Ok (wheelEvent e s)
  | EvZoom factor => Ok (zoom factor s)
  | EvTick v => __on_zoom v s
  | EvFinished => Ok (upd_anim stop s)
  | EvResize w h => resizeEvent (set_size w h s)
  | EvEnter => Ok (enterEvent s)
  | EvLeave => Ok (leaveEvent s)
  end.

(** Running a list of events from a state; [None] when an event is
    delivered that the toolkit cannot deliver there. *)
Fixpoint run (evs : list event) (s : State) : option (result State) :=
  match evs with
  | [] => Some (Ok s)
  | ev :: evs' =>
      if deliverable s ev then
        match dispatch ev s with
        | Ok s' => run evs' s'
        | Raise e => Some (Raise e)
        end
      else None
  end.

(** The states the widget can be in. *)
Inductive reachable : State -> Prop :=
| reach_init (w h : Z) :
    (0 < w)%Z -> (0 < h)%Z -> reachable (init w h)
| reach_step (s s' : State) (ev : event) :
    reachable s -> deliverable s ev = true -> dispatch ev s = Ok s' ->
    reachable s'.

(** The facts every handler keeps true. *)
Record Inv (s : State) : Prop := mkInv {
  inv_zoom : 1 <= zoom_total s;
  inv_m11 : 0 < Qt.m11 (transform s);
  inv_m22 : 0 < Qt.m22 (transform s);
  inv_width : (0 < width s)%Z;
  inv_height : (0 < height s)%Z;
  inv_start : forall a, startValue (zoom_anim s) = Some a -> 1 <= a;
  inv_end : forall b, endValue (zoom_anim s) = Some b -> 1 <= b;
  inv_scene : pixmap s <> None ->
              0 < rw (sceneRect s) /\ 0 < rh (sceneRect s)
}.

End ImageViewer.

(* ================================================================== *)
(** ** The widget with its animation emitting

    [QVariantAnimation] reports every change of its current value by
    the signal [valueChanged], and a connected slot runs at once.  The
    current value is recomputed, by linear interpolation between the
    two key values at the progress of the animation clock, not only on
    the ticks of the animation timer but also inside [setStartValue],
    [setEndValue] (at the progress the clock was left at) and [start]
    (which rewinds the clock first).  So [__on_zoom] runs inside
    [zoom] as well.  This module adds the animation clock and the value
    last reported to the widget state and runs the slot wherever the
    toolkit emits the signal; the methods are those of [ImageViewer],
    with every call on the animation object replaced by its emitting
    version. *)

Module Emitting.
Import Py Qt ImageViewer.

(** The rest of the animation object: its progress from 0 to 1 (the
    current time over the duration; the easing curve is linear) and
    its current value, which there is none of before both key values
    are set. *)
Record Clock : Set := mkClock { progress : Q; currentValue : option Q }.

Record Viewer : Set := mkViewer { self : State; clock : Clock }.

(** [setMinimumSize(QSize(700, 420))]. *)
Definition minimumWidth : Z := 700.
Definition minimumHeight : Z := 420.

Definition init (w h : Z) : Viewer :=
  mkViewer (ImageViewer.init w h) (mkClock 0 None).

Definition on_self (f : State -> State) (v : Viewer) : Viewer :=
  mkViewer (f (self v)) (clock v).

(** [QVariantAnimation.interpolated(from, to, progress)] on numbers. *)
Definition interpolated (from to progress : Q) : Q :=
  from + (to - from) * progress.

(** Whether a new current value differs from the one held. *)
Definition changed (held : option Q) (v : Q) : bool :=
  match held with
  | Some c => negb (Py.eqb c v)
  | None => true
  end.

(** The current value is recomputed from the key values and the clock;
    if that changes it, [valueChanged] is emitted and [__on_zoom] runs.
    Nothing happens while a key value is missing. *)
Definition updateCurrentValue (v : Viewer) : result Viewer :=
  match startValue (zoom_anim (self v)), endValue (zoom_anim (self v)) with
  | Some from, Some to =>
      let value := interpolated from to (progress (clock v)) in
      let emit := changed (currentValue (clock v)) value in
      let v := mkViewer (self v) (mkClock (progress (clock v)) (Some value)) in
      if emit then
        s <- __on_zoom value (self v) ;; Ok (mkViewer s (clock v))
      else Ok v
  | _, _ => Ok v
  end.

(** [stop()] leaves the clock where it is. *)
Definition stop (v : Viewer) : Viewer := on_self (upd_anim Qt.stop) v.

Definition setStartValue (a : Q) (v : Viewer) : result Viewer :=
  updateCurrentValue (on_self (upd_anim (Qt.setStartValue a)) v).

Definition setEndValue (b : Q) (v : Viewer) : result Viewer :=
  updateCurrentValue (on_self (upd_anim (Qt.setEndValue b)) v).

(** [start()]: nothing on a running animation; a stopped one is
    rewound, set running and its current value updated. *)
Definition start (v : Viewer) : result Viewer :=
  match state (zoom_anim (self v)) with
  | Running => Ok v
  | Paused => Ok (on_self (upd_anim Qt.start) v)
  | Stopped =>
      updateCurrentValue
        (mkViewer (upd_anim Qt.start (self v))
                  (mkClock 0 (currentValue (clock v))))
  end.

(** [zoom(factor)]. *)
Definition zoom (factor : Q) (v : Viewer) : result Viewer :=
  let running := AnimState_eqb (state (zoom_anim (self v))) Running in
  let v := stop v in
  let factor :=
    if negb Py.bool_of_None && running then factor * factor else factor in
  v <- setStartValue (zoom_total (self v)) v ;;
  v <- setEndValue (Py.max 1 (zoom_total (self v) * factor)) v ;;
  start v.

(** [wheelEvent(e)]. *)
Definition wheelEvent (e : QWheelEvent) (v : Viewer) : result Viewer :=
  let angle := py (angleDelta e) in
  if (angle <? 0)%Z && Py.eqb (zoom_total (self v)) 1
  then Ok (on_self (print MsgCannotShrink) v)
  else
    let v := on_self (set_zoom_origin (toPoint (position e))) v in
    let v := on_self (fun s => set_zoom_scene_origin
                                 (mapToScene s (zoom_origin s)) s) v in
    zoom (if (angle >? 0)%Z then 11 # 10 else 9 # 10) v.

(** [loadImage] and [resizeEvent] do not touch the animation. *)
Definition loadImage (decoded : QPixmap) (v : Viewer) : result Viewer :=
  s <- ImageViewer.loadImage decoded (self v) ;; Ok (mkViewer s (clock v)).

Definition resizeEvent (w h : Z) (v : Viewer) : result Viewer :=
  s <- ImageViewer.resizeEvent (set_size w h (self v)) ;;
  Ok (mkViewer s (clock v)).

(** A tick of the animation timer: the clock moves on to progress [p],
    the current value is updated, and at the end of its duration the
    animation stops. *)
Definition timerEvent (p : Q) (v : Viewer) : result Viewer :=
  v <- updateCurrentValue
         (mkViewer (self v) (mkClock p (currentValue (clock v)))) ;;
  if Py.eqb p 1 then Ok (stop v) else Ok v.

(** What reaches the widget: calls of its public methods and events
    of the toolkit. *)
Inductive event : Set :=
| EvLoadImage (decoded : QPixmap)
| EvWheel (e : QWheelEvent)
| EvZoom (factor : Q)
| EvTimer (p : Q)
| EvResize (w h : Z)
| EvEnter
| EvLeave.

(** The timer ticks only while the animation runs and never moves the
    clock back or past the end; a window is never smaller than its
    minimum size. *)
Definition deliverable (v : Viewer) (ev : event) : bool :=
  match ev with
  | EvTimer p =>
      AnimState_eqb (state (zoom_anim (self v))) Running &&
      Qle_bool (progress (clock v)) p && Qle_bool p 1
  | EvResize w h => (minimumWidth <=? w)%Z && (minimumHeight <=? h)%Z
  | _ => true
  end.

Definition dispatch (ev : event) (v : Viewer) : result Viewer :=
  match ev with
  | EvLoadImage decoded => loadImage decoded v
  | EvWheel e => wheelEvent e v
  | EvZoom factor => zoom factor v
  | EvTimer p => timerEvent p v
  | EvResize w h => resizeEvent w h v
  | EvEnter => Ok (on_self enterEvent v)
  | EvLeave => Ok (on_self leaveEvent v)
  end.

(** Running a list of events; [None] when one of them cannot be
    delivered in the state reached. *)
Fixpoint run (evs : list event) (v : Viewer) : option (result Viewer) :=
  match evs with
  | [] => Some (Ok v)
  | ev :: evs' =>
      if deliverable v ev then
        match dispatch ev v with
        | Ok v' => run evs' v'
        | Raise e => Some (Raise e)
        end
      else None
  end.

(** The states the widget can be in. *)
Inductive reachable : Viewer -> Prop :=
| reach_init (w h : Z) :
    (minimumWidth <= w)%Z -> (minimumHeight <= h)%Z -> reachable (init w h)
| reach_step (v v' : Viewer) (ev : event) :
    reachable v -> deliverable v ev = true -> dispatch ev v = Ok v' ->
    reachable v'.

(** An animation that is not running has either never been given an
    end value or has run to its end and holds its end value. *)
Definition at_rest (v : Viewer) : Prop :=
  match endValue (zoom_anim (self v)) with
  | None => True
  | Some b =>
      progress (clock v) == 1 /\
      exists c, currentValue (clock v) = Some c /\ c == b
  end.

(** The facts every handler keeps true. *)
Record Inv (v : Viewer) : Prop := mkInv {
  inv_self : ImageViewer.Inv (self v);
  inv_progress : 0 <= progress (clock v) <= 1;
  inv_keys : state (zoom_anim (self v)) = Running ->
             startValue (zoom_anim (self v)) <> None /\
             endValue (zoom_anim (self v)) <> None;
  inv_paused : state (zoom_anim (self v)) <> Paused;
  inv_rest : state (zoom_anim (self v)) = Stopped -> at_rest v
}.

(** A list of events run from a fresh 800 x 600 window (the fresh
    window itself if the list cannot be run or a handler raises). *)
Definition state_after (evs : list event) : Viewer :=
  match run evs (init 800 600) with
  | Some (Ok v) => v
  | _ => init 800 600
  end.

(** A 1600 x 1200 image, a wheel notch forwards at (100, 100), and the
    timer ticking at half of the animation 1.0 -> 1.1. *)
Definition halfway : list event :=
  [EvLoadImage (Pixmap 1600 1200);
   EvWheel (mkWheel (mkQPoint 0 120) (mkQPointF 100 100));
   EvTimer (1 # 2)].

(** A second notch at that moment (the animation now runs from 1.05),
    the timer at four fifths of the new animation, and then another
    image loaded while it runs. *)
Definition reloaded_midway : list event :=
  halfway ++ [EvWheel (mkWheel (mkQPoint 0 120) (mkQPointF 100 100));
              EvTimer (4 # 5);
              EvLoadImage (Pixmap 1600 1200)].

(** One notch run to its end in a single tick of the timer. *)
Definition one_notch : list event :=
  [EvLoadImage (Pixmap 1600 1200);
   EvWheel (mkWheel (mkQPoint 0 120) (mkQPointF 100 100));
   EvTimer 1].

End Emitting.

(* ================================================================== *)
(** ** The same float expressions on binary64 values *)

Module Binary64.

(** The test of [__on_zoom]: [factor = value / zoom_total] and then
    [factor == self.zoom_total]. *)
Definition on_zoom_skips (value zoom_total : float) : bool :=
  let factor := (value / zoom_total)%float in
  (factor =? zoom_total)%float.

(** The end value set by [zoom]: [max(1.0, zoom_total * factor)], after
    [factor *= factor] when the animation was running. *)
Definition zoom_end (running : bool) (zoom_total factor : float) : float :=
  let factor := if running then (factor * factor)%float else factor in
  let v := (zoom_total * factor)%float in
  if (1 <? v)%float then v else 1%float.

(** The literal [1.1]. *)
Definition f1_1 : float := 0x1.199999999999ap+0%float.

(** The literal [1e308]. *)
Definition f1e308 : float := 0x1.1ccf385ebc8a0p+1023%float.

(** The cumulative zoom and the zoom animation on binary64 values,
    after [Emitting]: key values, clock and current value of the
    animation, and the slot run wherever [valueChanged] is emitted.
    The view transform, which the zoom arithmetic never reads, is left
    out. *)
Record Anim : Set := mkAnim {
  running : bool;
  startValue : option float;
  endValue : option float;
  progress : float;
  currentValue : option float
}.

Record Zoom : Set := mkZoom { zoom_total : float; zoom_anim : Anim }.

(** After [__init__]. *)
Definition init : Zoom := mkZoom 1 (mkAnim false None None 0 None).

Definition upd_anim (f : Anim -> Anim) (z : Zoom) : Zoom :=
  mkZoom (zoom_total z) (f (zoom_anim z)).

(** [__on_zoom(value)]: the division raises on a zero [zoom_total]. *)
Definition __on_zoom (value : float) (z : Zoom) : Py.result Zoom :=
  if (zoom_total z =? 0)%float then Py.Raise Py.ZeroDivisionError
  else
    let factor := (value / zoom_total z)%float in
    if (factor =? zoom_total z)%float then Py.Ok z
    else Py.Ok (mkZoom value (zoom_anim z)).

Definition interpolated (from to progress : float) : float :=
  (from + (to - from) * progress)%float.

Definition changed (held : option float) (v : float) : bool :=
  match held with
  | Some c => negb (c =? v)%float
  | None => true
  end.

Definition updateCurrentValue (z : Zoom) : Py.result Zoom :=
  let a := zoom_anim z in
  match startValue a, endValue a with
  | Some from, Some to =>
      let value := interpolated from to (progress a) in
      let emit := changed (currentValue a) value in
      let z := upd_anim (fun a => mkAnim (running a) (startValue a)
                                         (endValue a) (progress a)
                                         (Some value)) z in
      if emit then __on_zoom value z else Py.Ok z
  | _, _ => Py.Ok z
  end.

Definition stop (z : Zoom) : Zoom :=
  upd_anim (fun a => mkAnim false (startValue a) (endValue a) (progress a)
                            (currentValue a)) z.

Definition setStartValue (v : float) (z : Zoom) : Py.result Zoom :=
  updateCurrentValue
    (upd_anim (fun a => mkAnim (running a) (Some v) (endValue a) (progress a)
                               (currentValue a)) z).

Definition setEndValue (v : float) (z : Zoom) : Py.result Zoom :=
  updateCurrentValue
    (upd_anim (fun a => mkAnim (running a) (startValue a) (Some v)
                               (progress a) (currentValue a)) z).

Definition start (z : Zoom) : Py.result Zoom :=
  if running (zoom_anim z) then Py.Ok z
  else
    updateCurrentValue
      (upd_anim (fun a => mkAnim true (startValue a) (endValue a) 0
                                 (currentValue a)) z).

(** [max(1.0, x)]: [x] when [x > 1.0], and 1.0 otherwise. *)
Definition max1 (x : float) : float := if (1 <? x)%float then x else 1%float.

(** [zoom(factor)]. *)
Definition zoom (factor : float) (z : Zoom) : Py.result Zoom :=
  let was_running := running (zoom_anim z) in
  let z := stop z in
  let factor := if was_running then (factor * factor)%float else factor in
  Py.bind (setStartValue (zoom_total z) z) (fun z =>
  Py.bind (setEndValue (max1 (zoom_total z * factor)) z) (fun z =>
  start z)).

(** A tick of the animation timer at progress [p]. *)
Definition timerEvent (p : float) (z : Zoom) : Py.result Zoom :=
  Py.bind
    (updateCurrentValue
       (upd_anim (fun a => mkAnim (running a) (startValue a) (endValue a) p
                                  (currentValue a)) z))
    (fun z => if (p =? 1)%float then Py.Ok (stop z) else Py.Ok z).

(** The invariant claimed for the cumulative zoom: [zoom_total >= 1.0]. *)
Definition at_least_one (z : Zoom) : bool := (1 <=? zoom_total z)%float.

End Binary64.

(* ================================================================== *)
(** ** Vocabulary of the statements *)

Module Spec.
Import Py Qt ImageViewer.

(** The state once [wheelEvent] has recorded the cursor as anchor. *)
Definition with_anchor (e : QWheelEvent) (s : State) : State :=
  let s := set_zoom_origin (toPoint (position e)) s in
  set_zoom_scene_origin (mapToScene s (zoom_origin s)) s.

(** The recorded anchor view point maps to the recorded scene point. *)
Definition anchored (s : State) : Prop :=
  peq (mapToScene s (zoom_origin s)) (zoom_scene_origin s).


(** A transform that is the uniform scaling by [f] and nothing else. *)
Definition scaling_by (f : Q) (t : QTransform) : Prop :=
  Qt.m11 t == f /\ Qt.m22 t == f /\ Qt.dx t == 0 /\ Qt.dy t == 0.

(** An image of [w] by [h] pixels drawn through [t] fits a window of
    [W] by [H]. *)
Definition fits (t : QTransform) (w h : positive) (W H : Z) : Prop :=
  inject_Z (Zpos w) * Qt.m11 t <= inject_Z W /\
  inject_Z (Zpos h) * Qt.m22 t <= inject_Z H.

(** The fit ratio of an image in a window. *)
Definition fit_ratio (w h : positive) (W H : Z) : Q :=
  Py.min (inject_Z W / inject_Z (Zpos w)) (inject_Z H / inject_Z (Zpos h)).


(** Two states that differ at most in what was printed. *)
Definition same_but_stdout (s s' : State) : Prop :=
  zoom_total s' = zoom_total s /\
  zoom_origin s' = zoom_origin s /\
  zoom_scene_origin s' = zoom_scene_origin s /\
  pixmap s' = pixmap s /\
  zoom_anim s' = zoom_anim s /\
  transform s' = transform s /\
  scene s' = scene s /\
  width s' = width s /\ height s' = height s /\
  transformationAnchor s' = transformationAnchor s.

End Spec.

(* ================================================================== *)
(** ** Scenarios used as concrete inputs *)

Module Scenario.
Import Py Qt ImageViewer.

(** A wheel notch forwards, backwards, and a zero delta, at (100, 100). *)
Definition wheel_in : QWheelEvent :=
  mkWheel (mkQPoint 0 120) (mkQPointF 100 100).
Definition wheel_out : QWheelEvent :=
  mkWheel (mkQPoint 0 (-120)) (mkQPointF 100 100).

(** An 800 x 600 window showing a 1600 x 1200 image. *)
Definition loaded : list event := [EvLoadImage (Pixmap 1600 1200)].

(** One notch zoomed in to 1.1 and at rest, then a second notch: the
    animation runs from 1.1 to 1.21. *)
Definition second_notch : list event :=
  loaded ++ [EvWheel wheel_in; EvTick (11 # 10); EvFinished; EvWheel wheel_in].

(** The window is resized while that animation runs. *)
Definition resized_midway : list event :=
  second_notch ++ [EvResize 400 300].

(** The state a list of events leads to from a fresh 800 x 600 window
    (the fresh window itself if the list cannot be run). *)
Definition state_after (evs : list event) : State :=
  match run evs (init 800 600) with
  | Some (Ok s) => s
  | _ => init 800 600
  end.

End Scenario.

(* ================================================================== *)
(** ** Vocabulary of the further properties *)

Module Coverage.
Import Py Qt ImageViewer.

(** The horizontal scale is the fit ratio times the cumulative zoom. *)
Definition fitted (s : State) : Prop :=
  exists r, ratio s = Ok r /\ m11 s == r * zoom_total s.

(** The image is drawn with the same scale in both directions. *)
Definition uniform (t : QTransform) : Prop := Qt.m11 t == Qt.m22 t.


(** An event that puts a new image in the scene. *)
Definition replaces_image (ev : event) : bool :=
  match ev with
  | EvLoadImage (Pixmap _ _) => true
  | _ => false
  end.

(** The anchor mode asked for by the last enter or leave event of a
    list, [a] if there is none. *)
Fixpoint anchor_mode_after (evs : list event) (a : ViewportAnchor)
    : ViewportAnchor :=
  match evs with
  | [] => a
  | EvEnter :: evs' => anchor_mode_after evs' NoAnchor
  | EvLeave :: evs' => anchor_mode_after evs' AnchorUnderMouse
  | _ :: evs' => anchor_mode_after evs' a
  end.

End Coverage.

(* ================================================================== *)
(** ** Facts about the Python comparisons *)

Import Py Qt ImageViewer Spec Scenario.

Lemma ltb_lt (a b : Q) : Py.ltb a b = true <-> a < b.
Proof. unfold Py.ltb, Qlt. apply Z.ltb_lt. Qed.

Lemma ltb_ge (a b : Q) : Py.ltb a b = false <-> b <= a.
Proof. unfold Py.ltb, Qle. apply Z.ltb_ge. Qed.

Lemma eqb_eq (a b : Q) : Py.eqb a b = true <-> a == b.
Proof. apply Qeq_bool_iff. Qed.

Lemma eqb_neq (a b : Q) : Py.eqb a b = false <-> ~ a == b.
Proof.
  split.
  - apply Qeq_bool_neq.
  - intro H. destruct (Py.eqb a b) eqn:E; [|reflexivity].
    apply eqb_eq in E. contradiction.
Qed.

Lemma leb_le (a b : Q) : Qle_bool a b = true <-> a <= b.
Proof. apply Qle_bool_iff. Qed.

Lemma leb_gt (a b : Q) : Qle_bool a b = false <-> b < a.
Proof.
  split; intro H.
  - apply Qnot_le_lt. intro L. apply leb_le in L. congruence.
  - destruct (Qle_bool a b) eqn:E; [|reflexivity].
    apply leb_le in E. lra.
Qed.

Lemma max_l (a b : Q) : a <= Py.max a b.
Proof.
  unfold Py.max. destruct (Py.ltb a b) eqn:E.
  - apply ltb_lt in E. lra.
  - lra.
Qed.

Lemma min_cases (a b : Q) :
  (Py.min a b = a /\ a <= b) \/ (Py.min a b = b /\ b < a).
Proof.
  unfold Py.min. destruct (Py.ltb b a) eqn:E.
  - right. apply ltb_lt in E. auto.
  - left. apply ltb_ge in E. auto.
Qed.

Lemma max_cases (a b : Q) :
  (Py.max a b = a /\ b <= a) \/ (Py.max a b = b /\ a < b).
Proof.
  unfold Py.max. destruct (Py.ltb a b) eqn:E.
  - right. apply ltb_lt in E. auto.
  - left. apply ltb_ge in E. auto.
Qed.

Lemma min_pos (a b : Q) : 0 < a -> 0 < b -> 0 < Py.min a b.
Proof. intros. destruct (min_cases a b) as [[-> _]|[-> _]]; assumption. Qed.

Lemma div_pos (a b : Q) : 0 < a -> 0 < b -> 0 < a / b.
Proof.
  intros. unfold Qdiv. apply Qmult_lt_0_compat; [assumption|].
  now apply Qinv_lt_0_compat.
Qed.

Lemma truediv_ok (a b : Q) : ~ b == 0 -> truediv a b = Ok (a / b).
Proof. intro H. unfold truediv. apply eqb_neq in H. now rewrite H. Qed.

Lemma between_ge (a b v : Q) :
  1 <= a -> 1 <= b -> between a b v = true -> 1 <= v.
Proof.
  unfold between. intros Ha Hb H.
  apply orb_true_iff in H.
  destruct H as [H|H]; apply andb_true_iff in H; destruct H as [H1 H2];
    apply leb_le in H1; apply leb_le in H2; lra.
Qed.

Lemma inject_Z_pos (z : Z) : (0 < z)%Z -> 0 < inject_Z z.
Proof. intro H. change 0 with (inject_Z 0). now rewrite <- Zlt_Qlt. Qed.

(* ================================================================== *)
(** ** Facts about the toolkit model *)

Lemma isNull_pos (r : QRectF) : 0 < rw r -> isNull r = false.
Proof.
  intro H. unfold isNull.
  destruct (Py.eqb (rw r) 0) eqn:E; [|reflexivity].
  apply eqb_eq in E. lra.
Qed.

Lemma isEmpty_pos (r : QRectF) : 0 < rw r -> 0 < rh r -> isEmpty r = false.
Proof.
  intros Hw Hh. unfold isEmpty.
  apply leb_gt in Hw. apply leb_gt in Hh. now rewrite Hw, Hh.
Qed.

Lemma united_grows (a b : QRectF) :
  0 < rw b -> 0 < rh b ->
  rw b <= rw (united a b) /\ rh b <= rh (united a b).
Proof.
  intros Hw Hh. unfold united.
  destruct (isNull a); [split; lra|].
  rewrite (isNull_pos b Hw). cbn [rw rh].
  destruct (min_cases (rx a) (rx b)) as [[-> ?]|[-> ?]];
  destruct (max_cases (rx a + rw a) (rx b + rw b)) as [[-> ?]|[-> ?]];
  destruct (min_cases (ry a) (ry b)) as [[-> ?]|[-> ?]];
  destruct (max_cases (ry a + rh a) (ry b + rh b)) as [[-> ?]|[-> ?]];
  split; lra.
Qed.

Lemma boundingRect_pixmap (w h : positive) (m : TransformationMode) :
  boundingRect (mkItem (Pixmap w h) m)
  = mkQRectF 0 0 (inject_Z (Zpos w)) (inject_Z (Zpos h)).
Proof. reflexivity. Qed.

Lemma inject_pos_pos (p : positive) : 0 < inject_Z (Zpos p).
Proof. apply inject_Z_pos. lia. Qed.

Lemma min_compat (a a' b b' : Q) :
  a == a' -> b == b' -> Py.min a b == Py.min a' b'.
Proof.
  intros Ha Hb.
  destruct (min_cases a b) as [[-> ?]|[-> ?]];
  destruct (min_cases a' b') as [[-> ?]|[-> ?]]; lra.
Qed.

Lemma mapRect_pos (t : QTransform) (r : QRectF) :
  0 < Qt.m11 t * rw r -> 0 < Qt.m22 t * rh r ->
  rw (mapRect t r) = Qt.m11 t * rw r /\ rh (mapRect t r) = Qt.m22 t * rh r.
Proof.
  intros Hw Hh. unfold mapRect. cbn [rw rh].
  assert (Ew : Py.ltb (Qt.m11 t * rw r) 0 = false) by (apply ltb_ge; lra).
  assert (Eh : Py.ltb (Qt.m22 t * rh r) 0 = false) by (apply ltb_ge; lra).
  now rewrite Ew, Eh.
Qed.

Lemma viewRect_width (z : Z) :
  inject_Z (z - 2 * viewportMargin) - 4 == inject_Z z.
Proof.
  unfold viewportMargin.
  replace (z - 2 * -2)%Z with (z + 4)%Z by lia.
  rewrite inject_Z_plus. change (inject_Z 4) with 4. ring.
Qed.

Lemma fitInView_identity (s : State) (w h : positive) (m : TransformationMode) :
  transform s = identity -> (0 < width s)%Z -> (0 < height s)%Z ->
  exists t,
    fitInView (mkItem (Pixmap w h) m) s = upd_transform (fun _ => t) s /\
    Qt.m11 t == Py.min (inject_Z (width s) / inject_Z (Zpos w))
                       (inject_Z (height s) / inject_Z (Zpos h)) /\
    Qt.m22 t == Qt.m11 t /\ Qt.dx t = 0 /\ Qt.dy t = 0.
Proof.
  intros Ht Hw Hh. unfold fitInView.
  rewrite boundingRect_pixmap.
  rewrite isNull_pos by apply inject_pos_pos.
  rewrite Ht.
  change (mapRect identity (mkQRectF 0 0 1 1)) with (mkQRectF 0 0 (1*1) (1*1)).
  change (isEmpty (mkQRectF 0 0 (1*1) (1*1))) with false. cbv iota.
  cbn [rw rh rx ry viewportRect view_scale upd_transform width height transform].
  rewrite Ht.
  change (Qt.scale (/ (1 * 1)) (/ (1 * 1)) identity)
    with (mkQTransform (1 * / (1*1)) (1 * / (1*1)) 0 0).
  pose proof (inject_pos_pos w) as Pw. pose proof (inject_pos_pos h) as Ph.
  pose proof (inject_Z_pos _ Hw) as PW. pose proof (inject_Z_pos _ Hh) as PH.
  pose proof (viewRect_width (width s)) as EW.
  pose proof (viewRect_width (height s)) as EH.
  rewrite isEmpty_pos by (cbn [rw rh]; lra).
  destruct (mapRect_pos (mkQTransform (1 * / (1*1)) (1 * / (1*1)) 0 0)
              (mkQRectF 0 0 (inject_Z (Zpos w)) (inject_Z (Zpos h))))
    as [Erw Erh]; cbn [Qt.m11 Qt.m22 rw rh].
  { change (1 * / (1 * 1)) with 1. lra. }
  { change (1 * / (1 * 1)) with 1. lra. }
  rewrite isEmpty_pos by (rewrite ?Erw, ?Erh; cbn [Qt.m11 Qt.m22 rw rh];
                          change (1 * / (1 * 1)) with 1; lra).
  rewrite Erw, Erh. cbn [Qt.m11 Qt.m22 rw rh].
  unfold view_scale, upd_transform.
  cbn [zoom_total zoom_origin zoom_scene_origin pixmap zoom_anim transform
       scene width height transformationAnchor stdout].
  rewrite Ht.
  eexists. split; [reflexivity|].
  cbn [Qt.scale Qt.m11 Qt.m22 Qt.dx Qt.dy identity].
  split; [|split; [reflexivity|split; reflexivity]].
  change (1 * / (1 * 1)) with 1. rewrite !Qmult_1_l.
  apply min_compat.
  - rewrite EW. field. lra.
  - rewrite EH. field. lra.
Qed.

(* ================================================================== *)
(** ** [ratio] and [loadImage] *)

Lemma min_mono (a a' b b' : Q) :
  a <= a' -> b <= b' -> Py.min a b <= Py.min a' b'.
Proof.
  intros Ha Hb.
  destruct (min_cases a b) as [[-> ?]|[-> ?]];
  destruct (min_cases a' b') as [[-> ?]|[-> ?]]; lra.
Qed.

Lemma div_antimono (a b c : Q) : 0 < a -> 0 < b -> b <= c -> a / c <= a / b.
Proof.
  intros Ha Hb Hbc.
  apply Qle_shift_div_l; [lra|].
  assert (E : a / c * b == a * (b / c)) by (field; lra).
  rewrite E.
  assert (b / c <= 1) by (apply Qle_shift_div_r; lra).
  nra.
Qed.

Lemma ratio_ok (s : State) :
  0 < rw (sceneRect s) -> 0 < rh (sceneRect s) ->
  ratio s = Ok (Py.min (inject_Z (width s) / rw (sceneRect s))
                       (inject_Z (height s) / rh (sceneRect s))).
Proof.
  intros Hw Hh. unfold ratio.
  rewrite !truediv_ok by lra. reflexivity.
Qed.

(** The state in which [loadImage] asks for the fit ratio. *)
Lemma loadImage_ok (s : State) (w h : positive) :
  (0 < width s)%Z -> (0 < height s)%Z ->
  let item := mkItem (Pixmap w h) SmoothTransformation in
  let s1 := upd_scene (addItem item)
              (set_pixmap (Some item)
                 (upd_scene clear (resetTransform (set_zoom_total 1 s)))) in
  exists r,
    ratio s1 = Ok r /\ 0 < r /\
    r <= Py.min (inject_Z (width s) / inject_Z (Zpos w))
                (inject_Z (height s) / inject_Z (Zpos h)) /\
    loadImage (Pixmap w h) s
    = Ok (if Py.ltb r 1 then fitInView item s1 else s1).
Proof.
  intros HW HH item s1.
  pose proof (inject_pos_pos w) as Pw. pose proof (inject_pos_pos h) as Ph.
  pose proof (inject_Z_pos _ HW) as PW. pose proof (inject_Z_pos _ HH) as PH.
  destruct (united_grows (growingRect (clear (scene s))) (boundingRect item))
    as [Gw Gh]; [exact Pw | exact Ph |].
  change (united (growingRect (clear (scene s))) (boundingRect item))
    with (sceneRect s1) in Gw, Gh.
  change (rw (boundingRect item)) with (inject_Z (Zpos w)) in Gw.
  change (rh (boundingRect item)) with (inject_Z (Zpos h)) in Gh.
  assert (E : ratio s1 = Ok (Py.min (inject_Z (width s) / rw (sceneRect s1))
                                    (inject_Z (height s) / rh (sceneRect s1)))).
  { apply (ratio_ok s1); lra. }
  eexists. split; [exact E|]. split; [|split].
  - apply min_pos; apply div_pos; lra.
  - apply min_mono; apply div_antimono; lra.
  - unfold loadImage. cbn [pixmapIsNull].
    change (ratio _) with (ratio s1). rewrite E. cbn [Py.bind].
    destruct (Py.ltb _ 1); reflexivity.
Qed.

(* ================================================================== *)
(** ** The invariant is kept by every handler *)

Lemma Inv_init (w h : Z) : (0 < w)%Z -> (0 < h)%Z -> Inv (init w h).
Proof.
  intros Hw Hh. constructor; cbn; try lra; try assumption.
  - discriminate.
  - discriminate.
  - intro H. now contradiction H.
Qed.

Lemma Inv_print (m : Msg) (s : State) : Inv s -> Inv (print m s).
Proof. intros [? ? ? ? ? ? ? ?]. constructor; assumption. Qed.

Lemma Inv_zoom (f : Q) (s : State) : Inv s -> Inv (zoom f s).
Proof.
  intros [Hz H11 H22 HW HH Ha Hb Hsc].
  constructor; try assumption; cbn.
  - intros a E. injection E as <-. exact Hz.
  - intros b E. injection E as <-. apply max_l.
Qed.

Lemma Inv_wheelEvent (e : QWheelEvent) (s : State) :
  Inv s -> Inv (wheelEvent e s).
Proof.
  intro I. unfold wheelEvent.
  destruct ((py (angleDelta e) <? 0)%Z && Py.eqb (zoom_total s) 1).
  - now apply Inv_print.
  - apply Inv_zoom. destruct I. constructor; assumption.
Qed.

Lemma Inv_on_zoom (v : Q) (s : State) :
  Inv s -> 1 <= v -> exists s', __on_zoom v s = Ok s' /\ Inv s'.
Proof.
  intros I Hv. pose proof I as [Hz H11 H22 HW HH Ha Hb Hsc].
  unfold __on_zoom. rewrite truediv_ok by lra. cbn [Py.bind].
  destruct (Py.eqb (v / zoom_total s) (zoom_total s)).
  - eexists. split; [reflexivity|]. now apply Inv_print.
  - eexists. split; [reflexivity|].
    assert (0 < v / zoom_total s) by (apply div_pos; lra).
    constructor; cbn; try assumption.
    + apply Qmult_lt_0_compat; assumption.
    + apply Qmult_lt_0_compat; assumption.
Qed.

Lemma Inv_loadImage (p : QPixmap) (s : State) :
  Inv s -> exists s', loadImage p s = Ok s' /\ Inv s'.
Proof.
  intros I. pose proof I as [Hz H11 H22 HW HH Ha Hb Hsc].
  destruct p as [|w h].
  - exists s. split; [reflexivity | exact I].
  - destruct (loadImage_ok s w h HW HH) as (r & Er & Pr & _ & ->).
    cbv zeta in Er.
    set (item := mkItem (Pixmap w h) SmoothTransformation) in *.
    set (s1 := upd_scene (addItem item) _) in *.
    destruct (united_grows (growingRect (clear (scene s))) (boundingRect item))
      as [Gw Gh]; [apply inject_pos_pos | apply inject_pos_pos |].
    change (united (growingRect (clear (scene s))) (boundingRect item))
      with (sceneRect s1) in Gw, Gh.
    change (rw (boundingRect item)) with (inject_Z (Zpos w)) in Gw.
    change (rh (boundingRect item)) with (inject_Z (Zpos h)) in Gh.
    pose proof (inject_pos_pos w) as Pw. pose proof (inject_pos_pos h) as Ph.
    assert (I1 : Inv s1).
    { constructor; try assumption; cbn.
      - apply Qle_refl.
      - intros _. split.
        + apply Qlt_le_trans with (inject_Z (Zpos w)); [exact Pw | exact Gw].
        + apply Qlt_le_trans with (inject_Z (Zpos h)); [exact Ph | exact Gh]. }
    eexists. split; [reflexivity|].
    destruct (Py.ltb r 1); [|exact I1].
    destruct (fitInView_identity s1 w h SmoothTransformation eq_refl HW HH)
      as (t & Et & E11 & E22 & _ & _).
    fold item in Et. rewrite Et.
    assert (0 < Qt.m11 t).
    { rewrite E11. apply min_pos; apply div_pos;
        try apply inject_Z_pos; assumption. }
    destruct I1. constructor; try assumption; cbn.
    rewrite E22. assumption.
Qed.

Lemma Inv_resizeEvent (w h : Z) (s : State) :
  Inv s -> (0 < w)%Z -> (0 < h)%Z ->
  exists s', resizeEvent (set_size w h s) = Ok s' /\ Inv s'.
Proof.
  intros I HW HH. pose proof I as [Hz H11 H22 _ _ Ha Hb Hsc].
  assert (I1 : Inv (set_size w h s)) by (constructor; assumption).
  unfold resizeEvent. cbn [pixmap set_size].
  destruct (pixmap s) eqn:Ep.
  - destruct Hsc as [Sw Sh]; [discriminate|].
    rewrite (ratio_ok (set_size w h s)) by assumption.
    cbn [Py.bind]. unfold m11. cbn [transform set_size].
    rewrite truediv_ok by lra. cbn [Py.bind].
    eexists. split; [reflexivity|].
    set (r := Py.min _ _).
    assert (0 < r).
    { apply min_pos; apply div_pos; cbn [width height set_size];
        first [apply inject_Z_pos; assumption | exact Sw | exact Sh]. }
    assert (0 < r * zoom_total s / Qt.m11 (transform s)).
    { apply div_pos; [|assumption]. apply Qmult_lt_0_compat; lra. }
    constructor; cbn; try assumption.
    + apply Qmult_lt_0_compat; assumption.
    + apply Qmult_lt_0_compat; assumption.
    + intros _. split; [exact Sw | exact Sh].
  - eexists. split; [reflexivity | exact I1].
Qed.

Lemma step_Inv (s : State) (ev : event) :
  Inv s -> deliverable s ev = true ->
  exists s', dispatch ev s = Ok s' /\ Inv s'.
Proof.
  intros I D. destruct ev as [p|e|f|v| |w h| |]; cbn [dispatch].
  - now apply Inv_loadImage.
  - eexists. split; [reflexivity|]. now apply Inv_wheelEvent.
  - eexists. split; [reflexivity|]. now apply Inv_zoom.
  - apply Inv_on_zoom; [assumption|].
    cbn [deliverable] in D. apply andb_true_iff in D. destruct D as [_ D].
    destruct (startValue (zoom_anim s)) as [a|] eqn:Ea; [|discriminate].
    destruct (endValue (zoom_anim s)) as [b|] eqn:Eb; [|discriminate].
    apply (between_ge a b); [| |assumption].
    + now apply (inv_start s I).
    + now apply (inv_end s I).
  - eexists. split; [reflexivity|]. destruct I. constructor; assumption.
  - cbn [deliverable] in D. apply andb_true_iff in D. destruct D as [D1 D2].
    apply Z.ltb_lt in D1. apply Z.ltb_lt in D2. now apply Inv_resizeEvent.
  - eexists. split; [reflexivity|]. destruct I. constructor; assumption.
  - eexists. split; [reflexivity|]. destruct I. constructor; assumption.
Qed.

Lemma reachable_Inv (s : State) : reachable s -> Inv s.
Proof.
  induction 1 as [w h Hw Hh | s s' ev _ IH D E].
  - now apply Inv_init.
  - destruct (step_Inv s ev IH D) as (s'' & E' & I').
    rewrite E in E'. now injection E' as ->.
Qed.


Lemma run_reachable (evs : list event) :
  forall s s', reachable s -> run evs s = Some (Ok s') -> reachable s'.
Proof.
  induction evs as [|ev evs IH]; intros s s' Rs R; cbn [run] in R.
  - now injection R as <-.
  - destruct (deliverable s ev) eqn:D; [|discriminate].
    destruct (dispatch ev s) as [s1|] eqn:E; [|discriminate].
    apply (IH s1); [|assumption]. now apply (reach_step s s1 ev).
Qed.

(* ================================================================== *)
(** ** The zoom floor *)



(* ================================================================== *)
(** ** [zoom] *)


Lemma zoom_same_view (f : Q) (s : State) :
  zoom_total (zoom f s) = zoom_total s /\
  zoom_origin (zoom f s) = zoom_origin s /\
  zoom_scene_origin (zoom f s) = zoom_scene_origin s /\
  pixmap (zoom f s) = pixmap s /\
  transform (zoom f s) = transform s /\
  scene (zoom f s) = scene s /\
  stdout (zoom f s) = stdout s.
Proof. repeat split. Qed.






(* ================================================================== *)
(** ** [wheelEvent] *)

Lemma with_anchor_records (e : QWheelEvent) (s : State) :
  zoom_origin (with_anchor e s) = toPoint (position e) /\
  zoom_scene_origin (with_anchor e s) = mapToScene s (toPoint (position e)) /\
  same_but_stdout (with_anchor e s)
    (set_zoom_scene_origin (zoom_scene_origin (with_anchor e s))
       (set_zoom_origin (zoom_origin (with_anchor e s)) s)) /\
  zoom_total (with_anchor e s) = zoom_total s /\
  zoom_anim (with_anchor e s) = zoom_anim s /\
  transform (with_anchor e s) = transform s.
Proof. unfold same_but_stdout. repeat split. Qed.

(** C7.  A wheel event with a negative vertical delta at cumulative
    zoom 1 is refused: one line is printed, and neither the zoom, the
    anchor, the transform nor the animation changes.  Every other wheel
    event records the cursor position (rounded to a view point) and its
    scene point as the anchor and then calls [zoom], with 1.1 for a
    positive delta and with 0.9 for a negative one. *)
Theorem wheelEvent_cases (e : QWheelEvent) (s : State) :
  ((py (angleDelta e) < 0)%Z /\ zoom_total s == 1 ->
     wheelEvent e s = print MsgCannotShrink s /\
     same_but_stdout s (wheelEvent e s)) /\
  (~ ((py (angleDelta e) < 0)%Z /\ zoom_total s == 1) ->
     zoom_origin (wheelEvent e s) = toPoint (position e) /\
     zoom_scene_origin (wheelEvent e s)
     = mapToScene s (toPoint (position e)) /\
     ((0 < py (angleDelta e))%Z ->
        wheelEvent e s = zoom (11 # 10) (with_anchor e s)) /\
     ((py (angleDelta e) < 0)%Z ->
        wheelEvent e s = zoom (9 # 10) (with_anchor e s))).
Proof.
  unfold wheelEvent. fold (with_anchor e s). split.
  - intros [Ha Hz]. apply Z.ltb_lt in Ha. apply eqb_eq in Hz.
    rewrite Ha, Hz. cbn [andb]. split; [reflexivity|].
    unfold same_but_stdout. repeat split.
  - intro N.
    destruct ((py (angleDelta e) <? 0)%Z && Py.eqb (zoom_total s) 1) eqn:G.
    + exfalso. apply N. apply andb_true_iff in G. destruct G as [Ha Hz].
      apply Z.ltb_lt in Ha. apply eqb_eq in Hz. now split.
    + split; [reflexivity|]. split; [reflexivity|]. split.
      * intro P. apply Z.gtb_lt in P. now rewrite P.
      * intro P. destruct (py (angleDelta e) >? 0)%Z eqn:Q; [|reflexivity].
        apply Z.gtb_lt in Q. lia.
Qed.



Lemma wheelEvent_cases_witness :
  wheelEvent wheel_out (state_after loaded)
  = print MsgCannotShrink (state_after loaded) /\
  wheelEvent wheel_in (state_after loaded)
  = zoom (11 # 10) (with_anchor wheel_in (state_after loaded)) /\
  wheelEvent wheel_out (state_after second_notch)
  = zoom (9 # 10) (with_anchor wheel_out (state_after second_notch)).
Proof.
  destruct (wheelEvent_cases wheel_out (state_after loaded)) as [R _].
  destruct (wheelEvent_cases wheel_in (state_after loaded)) as [_ A].
  destruct (wheelEvent_cases wheel_out (state_after second_notch)) as [_ B].
  split; [|split].
  - apply R. split; [reflexivity | vm_compute; reflexivity].
  - destruct A as (_ & _ & A & _).
    + intros [H _]. vm_compute in H. discriminate.
    + apply A. reflexivity.
  - destruct B as (_ & _ & _ & B).
    + intros [_ H]. vm_compute in H. discriminate.
    + apply B. reflexivity.
Defined.

(* ================================================================== *)
(** ** [loadImage] *)

(** C6.  When the file does not decode (null pixmap), [loadImage]
    returns without raising and hands back the very state it was
    given: zoom, transform, scene and image item are untouched. *)
Theorem loadImage_null_is_noop (decoded : QPixmap) (s : State) :
  pixmapIsNull decoded = true -> loadImage decoded s = Ok s.
Proof. intro H. unfold loadImage. now rewrite H. Qed.

Lemma loadImage_null_is_noop_witness :
  pixmapIsNull NullPixmap = true /\
  loadImage NullPixmap (state_after second_notch)
  = Ok (state_after second_notch).
Proof.
  split; [reflexivity|].
  apply (loadImage_null_is_noop NullPixmap (state_after second_notch)).
  reflexivity.
Defined.

Lemma fit_ratio_lt_1 (w h : positive) (W H : Z) :
  (0 < W)%Z -> (0 < H)%Z ->
  (W < Zpos w)%Z \/ (H < Zpos h)%Z -> fit_ratio w h W H < 1.
Proof.
  intros HW HH Big. unfold fit_ratio.
  pose proof (inject_pos_pos w) as Pw. pose proof (inject_pos_pos h) as Ph.
  destruct (min_cases (inject_Z W / inject_Z (Zpos w))
                      (inject_Z H / inject_Z (Zpos h)))
    as [[-> L]|[-> L]];
  destruct Big as [B|B]; rewrite Zlt_Qlt in B.
  - apply Qlt_shift_div_r; lra.
  - assert (inject_Z H / inject_Z (Zpos h) < 1)
      by (apply Qlt_shift_div_r; lra). lra.
  - assert (inject_Z W / inject_Z (Zpos w) < 1)
      by (apply Qlt_shift_div_r; lra). lra.
  - apply Qlt_shift_div_r; lra.
Qed.

Lemma fit_ratio_fits (w h : positive) (W H : Z) (t : QTransform) :
  scaling_by (fit_ratio w h W H) t -> fits t w h W H.
Proof.
  intros (E11 & E22 & _ & _). unfold fits. rewrite E11, E22.
  pose proof (inject_pos_pos w) as Pw. pose proof (inject_pos_pos h) as Ph.
  unfold fit_ratio.
  assert (Ew : inject_Z (Zpos w) * (inject_Z W / inject_Z (Zpos w))
               == inject_Z W) by (field; lra).
  assert (Eh : inject_Z (Zpos h) * (inject_Z H / inject_Z (Zpos h))
               == inject_Z H) by (field; lra).
  destruct (min_cases (inject_Z W / inject_Z (Zpos w))
                      (inject_Z H / inject_Z (Zpos h)))
    as [[-> L]|[-> L]]; split; nra.
Qed.

(** C5.  When the file decodes to a bitmap, [loadImage] returns with
    the cumulative zoom at 1 and the scene holding exactly the new
    image item, which the widget also keeps.  The transform is the
    identity when the fit ratio is at least 1; when it is below 1 the
    transform is the identity scaled, equally in both directions, by
    the smaller of window width / image width and window height /
    image height.  In particular an image wider or higher than the
    window is scaled down (by a factor below 1) to fit in it. *)
Theorem loadImage_decoded (s : State) (w h : positive) :
  (0 < width s)%Z -> (0 < height s)%Z ->
  exists s' r,
    loadImage (Pixmap w h) s = Ok s' /\
    ratio s' = Ok r /\
    zoom_total s' = 1 /\
    pixmap s' = Some (mkItem (Pixmap w h) SmoothTransformation) /\
    items (scene s') = [mkItem (Pixmap w h) SmoothTransformation] /\
    (1 <= r -> transform s' = identity) /\
    (r < 1 ->
       scaling_by (fit_ratio w h (width s) (height s)) (transform s')) /\
    ((width s < Zpos w)%Z \/ (height s < Zpos h)%Z ->
       r < 1 /\ fit_ratio w h (width s) (height s) < 1 /\
       fits (transform s') w h (width s) (height s)).
Proof.
  intros HW HH.
  destruct (loadImage_ok s w h HW HH) as (r & Er & Pr & Lr & E).
  cbv zeta in Er, E.
  set (item := mkItem (Pixmap w h) SmoothTransformation) in *.
  set (s1 := upd_scene (addItem item) _) in *.
  fold (fit_ratio w h (width s) (height s)) in Lr.
  destruct (fitInView_identity s1 w h SmoothTransformation eq_refl HW HH)
    as (t & Et & E11 & E22 & Edx & Edy).
  fold item in Et.
  change (Py.min _ _) with (fit_ratio w h (width s) (height s)) in E11.
  assert (St : scaling_by (fit_ratio w h (width s) (height s)) t).
  { unfold scaling_by. rewrite E22, E11, Edx, Edy. repeat split; reflexivity. }
  destruct (Py.ltb r 1) eqn:L.
  - apply ltb_lt in L. rewrite Et in E.
    exists (upd_transform (fun _ => t) s1), r.
    split; [exact E|]. split; [exact Er|].
    split; [reflexivity|]. split; [reflexivity|]. split; [reflexivity|].
    split; [intro; lra|]. split; [intros _; exact St|].
    intro Big. split; [exact L|]. split.
    + now apply fit_ratio_lt_1.
    + now apply fit_ratio_fits.
  - apply ltb_ge in L.
    exists s1, r.
    split; [exact E|]. split; [exact Er|].
    split; [reflexivity|]. split; [reflexivity|]. split; [reflexivity|].
    split; [intros _; reflexivity|]. split; [intro; lra|].
    intro Big. pose proof (fit_ratio_lt_1 w h _ _ HW HH Big). lra.
Qed.

Lemma loadImage_decoded_witness :
  (0 < width (init 800 600))%Z /\ (0 < height (init 800 600))%Z /\
  exists s' r,
    loadImage (Pixmap 1600 1200) (init 800 600) = Ok s' /\
    ratio s' = Ok r /\
    zoom_total s' = 1 /\
    pixmap s' = Some (mkItem (Pixmap 1600 1200) SmoothTransformation) /\
    items (scene s') = [mkItem (Pixmap 1600 1200) SmoothTransformation] /\
    (1 <= r -> transform s' = identity) /\
    (r < 1 -> scaling_by (fit_ratio 1600 1200 800 600) (transform s')) /\
    ((800 < 1600)%Z \/ (600 < 1200)%Z ->
       r < 1 /\ fit_ratio 1600 1200 800 600 < 1 /\
       fits (transform s') 1600 1200 800 600).
Proof.
  split; [reflexivity|]. split; [reflexivity|].
  apply (loadImage_decoded (init 800 600) 1600 1200); reflexivity.
Defined.

(* ================================================================== *)
(** ** [resizeEvent] *)

Lemma state_after_reachable (evs : list event) (s : State) :
  run evs (init 800 600) = Some (Ok s) -> reachable s.
Proof.
  apply run_reachable. apply reach_init; lia.
Qed.

(** C9.  A resize event delivered to a reachable state in which an
    image is loaded returns without raising; afterwards the
    horizontal scale coefficient [m11] equals the fit ratio of the new
    window size (the smaller of window width / scene width and window
    height / scene height) multiplied by the cumulative zoom, which
    the event leaves as it was.  At cumulative zoom 1 the coefficient
    is the fit ratio itself. *)
Theorem resizeEvent_rescales_to_fit (s : State) (w h : Z) :
  reachable s -> pixmap s <> None -> (0 < w)%Z -> (0 < h)%Z ->
  exists s' r,
    dispatch (EvResize w h) s = Ok s' /\
    ratio s' = Ok r /\
    r = Py.min (inject_Z w / rw (sceneRect s))
               (inject_Z h / rh (sceneRect s)) /\
    zoom_total s' = zoom_total s /\
    m11 s' == r * zoom_total s' /\
    (zoom_total s == 1 -> m11 s' == r).
Proof.
  intros R P HW HH.
  pose proof (reachable_Inv s R) as [Hz H11 H22 _ _ _ _ Hsc].
  destruct (Hsc P) as [Sw Sh].
  cbn [dispatch]. unfold resizeEvent. cbn [pixmap set_size].
  destruct (pixmap s) as [i|]; [|contradiction P; reflexivity].
  rewrite (ratio_ok (set_size w h s)) by assumption.
  cbn [Py.bind]. unfold m11 at 1. cbn [transform set_size].
  rewrite truediv_ok by lra. cbn [Py.bind].
  cbn [width height set_size].
  change (sceneRect (set_size w h s)) with (sceneRect s).
  set (r := Py.min _ _).
  eexists. exists r. split; [reflexivity|].
  split; [apply (ratio_ok (set_size w h s)); assumption|].
  split; [reflexivity|]. split; [reflexivity|].
  unfold m11. cbn.
  assert (E : Qt.m11 (transform s) * (r * zoom_total s / Qt.m11 (transform s))
              == r * zoom_total s) by (field; lra).
  split; [exact E|].
  intro Z1. rewrite E, Z1. ring.
Qed.

Lemma resizeEvent_rescales_to_fit_witness :
  reachable (state_after second_notch) /\
  pixmap (state_after second_notch) <> None /\
  (0 < 400)%Z /\ (0 < 300)%Z /\
  exists s' r,
    dispatch (EvResize 400 300) (state_after second_notch) = Ok s' /\
    ratio s' = Ok r /\
    r = Py.min (inject_Z 400 / rw (sceneRect (state_after second_notch)))
               (inject_Z 300 / rh (sceneRect (state_after second_notch))) /\
    zoom_total s' = zoom_total (state_after second_notch) /\
    m11 s' == r * zoom_total s' /\
    (zoom_total (state_after second_notch) == 1 -> m11 s' == r).
Proof.
  assert (R : reachable (state_after second_notch)).
  { apply (state_after_reachable second_notch). vm_compute. reflexivity. }
  assert (P : pixmap (state_after second_notch) <> None).
  { vm_compute. discriminate. }
  split; [exact R|]. split; [exact P|].
  split; [lia|]. split; [lia|].
  apply (resizeEvent_rescales_to_fit (state_after second_notch) 400 300 R P);
    lia.
Defined.

(* ================================================================== *)
(** ** The tick handler [__on_zoom] *)


Lemma on_zoom_skip (v : Q) (s : State) :
  ~ zoom_total s == 0 ->
  Py.eqb (v / zoom_total s) (zoom_total s) = true ->
  __on_zoom v s = Ok (print MsgNoScaling s).
Proof.
  intros Hz G. unfold __on_zoom. rewrite truediv_ok by assumption.
  cbn [Py.bind]. now rewrite G.
Qed.

Lemma on_zoom_apply (v : Q) (s : State) :
  ~ zoom_total s == 0 ->
  Py.eqb (v / zoom_total s) (zoom_total s) = false ->
  exists s',
    __on_zoom v s = Ok s' /\
    zoom_total s' = v /\
    transform s'
    = Qt.translate
        (fx (psub (mapToScene (view_scale (v / zoom_total s)
                                          (v / zoom_total s) s)
                              (zoom_origin s))
                  (zoom_scene_origin s)))
        (fy (psub (mapToScene (view_scale (v / zoom_total s)
                                          (v / zoom_total s) s)
                              (zoom_origin s))
                  (zoom_scene_origin s)))
        (Qt.scale (v / zoom_total s) (v / zoom_total s) (transform s)) /\
    zoom_origin s' = zoom_origin s /\
    zoom_scene_origin s' = zoom_scene_origin s /\
    stdout s' = stdout s.
Proof.
  intros Hz G. unfold __on_zoom. rewrite truediv_ok by assumption.
  cbn [Py.bind]. rewrite G.
  eexists. split; [reflexivity|]. repeat split.
Qed.






(** C4, at two ticks the toolkit can deliver.  The guard of the
    handler compares the incremental factor with the cumulative zoom,
    not with 1.  At zoom 1.1, the tick 1.21 (factor 1.1) is skipped
    although it is an effective step; and the tick 1.1 (factor 1, no
    effective change) is not skipped: nothing is printed and, the
    window having been resized meanwhile, the transform is moved. *)
Theorem on_zoom_guard_misses_no_change :
  (deliverable (state_after second_notch) (EvTick (121 # 100)) = true /\
   zoom_total (state_after second_notch) == 11 # 10 /\
   ~ (121 # 100) / zoom_total (state_after second_notch) == 1 /\
   __on_zoom (121 # 100) (state_after second_notch)
   = Ok (print MsgNoScaling (state_after second_notch))) /\
  (deliverable (state_after resized_midway) (EvTick (11 # 10)) = true /\
   (11 # 10) / zoom_total (state_after resized_midway) == 1 /\
   exists s',
     __on_zoom (11 # 10) (state_after resized_midway) = Ok s' /\
     stdout s' = stdout (state_after resized_midway) /\
     Qt.dx (transform (state_after resized_midway)) == - (10) /\
     Qt.dx (transform s') == 45).
Proof.
  split.
  - split; [vm_compute; reflexivity|].
    split; [vm_compute; reflexivity|].
    split; [vm_compute; discriminate|].
    apply on_zoom_skip.
    + vm_compute. discriminate.
    + vm_compute. reflexivity.
  - split; [vm_compute; reflexivity|].
    split; [vm_compute; reflexivity|].
    destruct (on_zoom_apply (11 # 10) (state_after resized_midway))
      as (s' & E & _ & Et & _ & _ & Eout).
    + vm_compute. discriminate.
    + vm_compute. reflexivity.
    + exists s'. split; [exact E|]. split; [exact Eout|].
      split; [vm_compute; reflexivity|].
      rewrite Et. vm_compute. reflexivity.
Qed.


(* ================================================================== *)
(** ** The same inputs on binary64 values *)

(** With the cumulative zoom at 1.1, the end value that [zoom(1.1)]
    sets is 1.1 * 1.1, and the tick that delivers it is skipped by the
    handler's test in binary64 arithmetic too. *)
Lemma binary64_end_value_tick_is_skipped :
  Binary64.zoom_end false Binary64.f1_1 Binary64.f1_1
  = (Binary64.f1_1 * Binary64.f1_1)%float /\
  Binary64.on_zoom_skips
    (Binary64.zoom_end false Binary64.f1_1 Binary64.f1_1) Binary64.f1_1
  = true.
Proof. split; vm_compute; reflexivity. Qed.

(** A tick equal to the cumulative zoom 1.1 is not skipped. *)
Lemma binary64_null_tick_is_not_skipped :
  Binary64.on_zoom_skips Binary64.f1_1 Binary64.f1_1 = false.
Proof. vm_compute. reflexivity. Qed.

(** Restarting a running animation multiplies by the factor squared,
    not doubled. *)
Lemma binary64_restart_squares :
  Binary64.zoom_end true Binary64.f1_1 Binary64.f1_1
  = (Binary64.f1_1 * (Binary64.f1_1 * Binary64.f1_1))%float /\
  (Binary64.zoom_end true Binary64.f1_1 Binary64.f1_1
   <? Binary64.f1_1 * (2 * Binary64.f1_1))%float = true.
Proof. split; vm_compute; reflexivity. Qed.

(* ================================================================== *)
(** ** What each handler leaves alone *)

Import Coverage.

Lemma fitInView_frame (i : QGraphicsPixmapItem) (s : State) :
  exists t, fitInView i s = upd_transform (fun _ => t) s.
Proof.
  unfold fitInView.
  destruct (isNull (boundingRect i)).
  { exists (transform s). destruct s; reflexivity. }
  destruct (isEmpty (mapRect (transform s) (mkQRectF 0 0 1 1))).
  { exists (transform s). destruct s; reflexivity. }
  cbv zeta.
  match goal with |- context [if isEmpty ?r then _ else _] =>
    destruct (isEmpty r) end.
  { eexists. reflexivity. }
  match goal with |- context [if isEmpty ?r then _ else _] =>
    destruct (isEmpty r) end.
  { eexists. reflexivity. }
  eexists. reflexivity.
Qed.

Lemma loadImage_frame (w h : positive) (s s' : State) :
  loadImage (Pixmap w h) s = Ok s' ->
  exists t,
    s' = upd_transform (fun _ => t)
           (upd_scene (addItem (mkItem (Pixmap w h) SmoothTransformation))
              (set_pixmap (Some (mkItem (Pixmap w h) SmoothTransformation))
                 (upd_scene clear (resetTransform (set_zoom_total 1 s))))).
Proof.
  unfold loadImage. cbn [pixmapIsNull]. cbv zeta.
  change (setTransformationMode SmoothTransformation (newItem (Pixmap w h)))
    with (mkItem (Pixmap w h) SmoothTransformation).
  set (item := mkItem (Pixmap w h) SmoothTransformation).
  set (s1 := upd_scene (addItem item) _).
  destruct (ratio s1) as [r|e]; cbn [Py.bind]; [|discriminate].
  destruct (Py.ltb r 1); intro E; injection E as <-.
  - destruct (fitInView_frame item s1) as [t ->]. exists t. reflexivity.
  - exists identity. reflexivity.
Qed.

Lemma on_zoom_frame (v : Q) (s s' : State) :
  __on_zoom v s = Ok s' ->
  pixmap s' = pixmap s /\ scene s' = scene s /\
  width s' = width s /\ height s' = height s /\
  zoom_anim s' = zoom_anim s /\
  zoom_origin s' = zoom_origin s /\
  zoom_scene_origin s' = zoom_scene_origin s /\
  transformationAnchor s' = transformationAnchor s.
Proof.
  unfold __on_zoom.
  destruct (truediv v (zoom_total s)) as [f|e]; cbn [Py.bind]; [|discriminate].
  destruct (Py.eqb f (zoom_total s)); intro E; injection E as <-;
    repeat split.
Qed.

Lemma resizeEvent_frame (s s' : State) :
  resizeEvent s = Ok s' ->
  zoom_total s' = zoom_total s /\
  pixmap s' = pixmap s /\ scene s' = scene s /\
  width s' = width s /\ height s' = height s /\
  zoom_anim s' = zoom_anim s /\
  zoom_origin s' = zoom_origin s /\
  zoom_scene_origin s' = zoom_scene_origin s /\
  transformationAnchor s' = transformationAnchor s /\
  stdout s' = stdout s.
Proof.
  unfold resizeEvent.
  destruct (pixmap s) as [i|] eqn:P.
  - destruct (ratio s) as [r|e]; cbn [Py.bind]; [|discriminate].
    destruct (truediv (r * zoom_total s) (m11 s)) as [f|e];
      cbn [Py.bind]; [|discriminate].
    intro E; injection E as <-. cbn. rewrite P. repeat split.
  - intro E; injection E as <-. rewrite P. repeat split.
Qed.

Lemma wheelEvent_frame (e : QWheelEvent) (s : State) :
  zoom_total (wheelEvent e s) = zoom_total s /\
  transform (wheelEvent e s) = transform s /\
  pixmap (wheelEvent e s) = pixmap s /\
  scene (wheelEvent e s) = scene s /\
  width (wheelEvent e s) = width s /\
  height (wheelEvent e s) = height s /\
  transformationAnchor (wheelEvent e s) = transformationAnchor s.
Proof.
  unfold wheelEvent.
  destruct ((py (angleDelta e) <? 0)%Z && Py.eqb (zoom_total s) 1);
    repeat split.
Qed.

(* ================================================================== *)
(** ** [ratio] on an empty scene, and the guard of [resizeEvent] *)

(** X1.  [ratio()] raises [ZeroDivisionError] exactly when the scene
    rectangle has zero width or zero height; otherwise it returns the
    smaller of window width / scene width and window height / scene
    height. *)
Theorem ratio_raises_iff_scene_empty (s : State) :
  (ratio s = Raise ZeroDivisionError <->
   rw (sceneRect s) == 0 \/ rh (sceneRect s) == 0) /\
  (~ (rw (sceneRect s) == 0 \/ rh (sceneRect s) == 0) ->
   ratio s = Ok (Py.min (inject_Z (width s) / rw (sceneRect s))
                        (inject_Z (height s) / rh (sceneRect s)))).
Proof.
  unfold ratio, truediv.
  destruct (Py.eqb (rw (sceneRect s)) 0) eqn:Ew.
  - apply eqb_eq in Ew. cbn [Py.bind]. split.
    + split; [intros _; left; exact Ew | reflexivity].
    + intro N. exfalso. apply N. left. exact Ew.
  - apply eqb_neq in Ew. cbn [Py.bind].
    destruct (Py.eqb (rh (sceneRect s)) 0) eqn:Eh.
    + apply eqb_eq in Eh. cbn [Py.bind]. split.
      * split; [intros _; right; exact Eh | reflexivity].
      * intro N. exfalso. apply N. right. exact Eh.
    + apply eqb_neq in Eh. cbn [Py.bind]. split.
      * split; [discriminate|]. intros [F|F]; contradiction.
      * reflexivity.
Qed.

Lemma no_image_no_scene (s : State) :
  reachable s -> pixmap s = None -> scene s = newScene.
Proof.
  induction 1 as [w h Hw Hh | s s' ev R IH D E]; [reflexivity|].
  destruct ev as [p|e|f|v| |w h| |]; cbn [dispatch] in E.
  - destruct p as [|w h].
    + cbn in E. injection E as <-. exact IH.
    + apply loadImage_frame in E. destruct E as [t ->]. discriminate.
  - injection E as <-. destruct (wheelEvent_frame e s) as (_ & _ & P & S & _).
    rewrite P, S. exact IH.
  - injection E as <-. exact IH.
  - apply on_zoom_frame in E. destruct E as (P & S & _).
    rewrite P, S. exact IH.
  - injection E as <-. exact IH.
  - apply resizeEvent_frame in E. destruct E as (_ & P & S & _).
    rewrite P, S. exact IH.
  - injection E as <-. exact IH.
  - injection E as <-. exact IH.
Qed.

(** X2.  A resize event delivered before any image was loaded only
    records the new window size: the handler returns at its guard
    [if not self.pixmap], although [ratio()] would raise
    [ZeroDivisionError] in that state. *)
Theorem resizeEvent_without_image (s : State) (w h : Z) :
  reachable s -> pixmap s = None ->
  dispatch (EvResize w h) s = Ok (set_size w h s) /\
  ratio (set_size w h s) = Raise ZeroDivisionError.
Proof.
  intros R P. split.
  - cbn [dispatch]. unfold resizeEvent. cbn [pixmap set_size].
    now rewrite P.
  - unfold ratio, sceneRect. cbn [scene set_size].
    rewrite (no_image_no_scene s R P). reflexivity.
Qed.

Lemma resizeEvent_without_image_witness :
  reachable (init 800 600) /\ pixmap (init 800 600) = None /\
  dispatch (EvResize 1024 768) (init 800 600)
  = Ok (set_size 1024 768 (init 800 600)) /\
  ratio (set_size 1024 768 (init 800 600)) = Raise ZeroDivisionError.
Proof.
  assert (R : reachable (init 800 600)) by (apply reach_init; lia).
  split; [exact R|]. split; [reflexivity|].
  exact (resizeEvent_without_image (init 800 600) 1024 768 R eq_refl).
Defined.

(* ================================================================== *)
(** ** The anchor during an animation *)


Lemma anchored_same_view (s s' : State) :
  transform s' = transform s -> zoom_origin s' = zoom_origin s ->
  zoom_scene_origin s' = zoom_scene_origin s ->
  anchored s -> anchored s'.
Proof.
  unfold anchored, mapToScene. intros -> -> ->. exact (fun H => H).
Qed.






(* ================================================================== *)
(** ** The target of a zoom *)

Lemma zoom_end_value (f : Q) (s : State) :
  endValue (zoom_anim (zoom f s))
  = Some (Py.max 1 (zoom_total s *
            (if AnimState_eqb (state (zoom_anim s)) Running
             then f * f else f))).
Proof. reflexivity. Qed.


Lemma max_1_below (x : Q) : x <= 1 -> Py.max 1 x = 1.
Proof. intro H. unfold Py.max. apply ltb_ge in H. now rewrite H. Qed.




(** X6.  Two calls [zoom(f)] in a row, the first on an idle animation
    and the second before any tick arrived, aim where one more step
    [f] from the first target leads: the second end value is
    [max(1.0, f * e1)] for the first end value [e1]. *)
Theorem zoom_twice_compounds (f : Q) (s : State) :
  1 <= zoom_total s -> 0 < f -> state (zoom_anim s) <> Running ->
  exists e1 e2,
    endValue (zoom_anim (zoom f s)) = Some e1 /\
    endValue (zoom_anim (zoom f (zoom f s))) = Some e2 /\
    e2 == Py.max 1 (f * e1).
Proof.
  intros Hz Hf NR.
  assert (E0 : AnimState_eqb (state (zoom_anim s)) Running = false).
  { destruct (state (zoom_anim s)); try reflexivity.
    contradiction NR; reflexivity. }
  exists (Py.max 1 (zoom_total s * f)),
         (Py.max 1 (zoom_total s * (f * f))).
  split; [rewrite zoom_end_value, E0; reflexivity|].
  split; [rewrite zoom_end_value; reflexivity|].
  destruct (max_cases 1 (zoom_total s * f)) as [[-> L1]|[-> L1]];
  destruct (max_cases 1 (zoom_total s * (f * f))) as [[-> L2]|[-> L2]];
  match goal with |- _ == Py.max 1 ?x =>
    destruct (max_cases 1 x) as [[-> L3]|[-> L3]] end;
  nra.
Qed.

Lemma zoom_twice_compounds_witness :
  1 <= zoom_total (state_after loaded) /\ 0 < 9 # 10 /\
  state (zoom_anim (state_after loaded)) <> Running /\
  exists e1 e2,
    endValue (zoom_anim (zoom (9 # 10) (state_after loaded))) = Some e1 /\
    endValue (zoom_anim (zoom (9 # 10) (zoom (9 # 10) (state_after loaded))))
    = Some e2 /\
    e2 == Py.max 1 ((9 # 10) * e1).
Proof.
  assert (Hz : 1 <= zoom_total (state_after loaded))
    by (vm_compute; discriminate).
  assert (Hf : 0 < 9 # 10) by reflexivity.
  assert (NR : state (zoom_anim (state_after loaded)) <> Running)
    by (vm_compute; discriminate).
  split; [exact Hz|]. split; [exact Hf|]. split; [exact NR|].
  exact (zoom_twice_compounds (9 # 10) (state_after loaded) Hz Hf NR).
Defined.

(* ================================================================== *)
(** ** The fit ratio and the zoom *)

Lemma ratio_same (s s' : State) :
  scene s' = scene s -> width s' = width s -> height s' = height s ->
  ratio s' = ratio s.
Proof. unfold ratio, sceneRect. now intros -> -> ->. Qed.

(** X7.  As the docstring of [ratio()] says, zooming does not change
    the fit ratio: a wheel event, a call of [zoom] and an animation
    tick all leave [ratio()] with the result it had, value or
    exception. *)
Theorem ratio_unaffected_by_zoom (s : State) :
  (forall e, ratio (wheelEvent e s) = ratio s) /\
  (forall f, ratio (zoom f s) = ratio s) /\
  (forall v s', __on_zoom v s = Ok s' -> ratio s' = ratio s).
Proof.
  split; [|split].
  - intro e. destruct (wheelEvent_frame e s) as (_ & _ & _ & S & W & H & _).
    now apply ratio_same.
  - intro f. reflexivity.
  - intros v s' E. apply on_zoom_frame in E.
    destruct E as (_ & S & W & H & _). now apply ratio_same.
Qed.

Lemma ratio_unaffected_by_zoom_witness :
  ratio (wheelEvent wheel_in (state_after loaded))
  = ratio (state_after loaded) /\
  exists s',
    __on_zoom (12 # 10) (state_after second_notch) = Ok s' /\
    ratio s' = ratio (state_after second_notch).
Proof.
  destruct (ratio_unaffected_by_zoom (state_after loaded)) as (W & _ & _).
  destruct (ratio_unaffected_by_zoom (state_after second_notch))
    as (_ & _ & T).
  split; [apply W|].
  destruct (on_zoom_apply (12 # 10) (state_after second_notch))
    as (s' & E & _).
  - vm_compute. discriminate.
  - vm_compute. reflexivity.
  - exists s'. split; [exact E|]. exact (T (12 # 10) s' E).
Defined.

(* ================================================================== *)
(** ** The scale kept by the handlers *)

Lemma resizeEvent_scaled (s : State) :
  pixmap s <> None ->
  0 < rw (sceneRect s) -> 0 < rh (sceneRect s) -> 0 < m11 s ->
  resizeEvent s
  = Ok (view_scale
          (Py.min (inject_Z (width s) / rw (sceneRect s))
                  (inject_Z (height s) / rh (sceneRect s))
           * zoom_total s / m11 s)
          (Py.min (inject_Z (width s) / rw (sceneRect s))
                  (inject_Z (height s) / rh (sceneRect s))
           * zoom_total s / m11 s) s).
Proof.
  intros P Sw Sh M. unfold resizeEvent.
  destruct (pixmap s) as [i|]; [|contradiction P; reflexivity].
  rewrite ratio_ok by assumption. cbn [Py.bind].
  rewrite truediv_ok by lra. reflexivity.
Qed.

Lemma resizeEvent_fitted (s : State) (w h : Z) :
  Inv s -> pixmap s <> None -> (0 < w)%Z -> (0 < h)%Z ->
  exists s', resizeEvent (set_size w h s) = Ok s' /\ fitted s'.
Proof.
  intros I P HW HH. pose proof I as [Hz H11 H22 _ _ _ _ Hsc].
  destruct (Hsc P) as [Sw Sh].
  rewrite (resizeEvent_scaled (set_size w h s)) by assumption.
  eexists. split; [reflexivity|].
  unfold fitted.
  eexists. split; [apply (ratio_ok (set_size w h s)); assumption|].
  unfold m11. cbn [view_scale upd_transform transform Qt.scale Qt.m11
                   zoom_total set_size width height].
  change (sceneRect (set_size w h s)) with (sceneRect s).
  field. lra.
Qed.

Lemma fitted_same (s s' : State) :
  scene s' = scene s -> width s' = width s -> height s' = height s ->
  transform s' = transform s -> zoom_total s' = zoom_total s ->
  fitted s -> fitted s'.
Proof.
  intros S W H T Z (r & Er & Em). exists r. split.
  - rewrite (ratio_same s s') by assumption. exact Er.
  - unfold m11 in *. rewrite T, Z. exact Em.
Qed.

Lemma step_fitted (s s' : State) (ev : event) :
  reachable s -> fitted s -> replaces_image ev = false ->
  deliverable s ev = true -> dispatch ev s = Ok s' -> fitted s'.
Proof.
  intros R F NL D E. pose proof (reachable_Inv s R) as I.
  destruct ev as [p|e|f|v| |w h| |]; cbn [dispatch] in E.
  - destruct p as [|w h]; [|discriminate NL].
    cbn in E. injection E as <-. exact F.
  - injection E as <-.
    destruct (wheelEvent_frame e s) as (Z & T & _ & S & W & H & _).
    now apply (fitted_same s).
  - injection E as <-. now apply (fitted_same s).
  - pose proof I as [Hz H11 H22 _ _ _ _ _].
    destruct (Py.eqb (v / zoom_total s) (zoom_total s)) eqn:G.
    + rewrite on_zoom_skip in E by (assumption || lra).
      injection E as <-. now apply (fitted_same s).
    + destruct (on_zoom_apply v s) as (s'' & E'' & Ez & Et & _);
        [lra | exact G |].
      rewrite E in E''. injection E'' as <-.
      destruct F as (r & Er & Em). exists r. split.
      * apply on_zoom_frame in E. destruct E as (_ & S & W & H & _).
        rewrite (ratio_same s s') by assumption. exact Er.
      * unfold m11 in *. rewrite Et, Ez.
        cbn [Qt.translate Qt.scale Qt.m11]. rewrite Em. field. lra.
  - injection E as <-. now apply (fitted_same s).
  - cbn [deliverable] in D. apply andb_true_iff in D. destruct D as [D1 D2].
    apply Z.ltb_lt in D1. apply Z.ltb_lt in D2.
    destruct (pixmap s) as [i|] eqn:P.
    + destruct (resizeEvent_fitted s w h I) as (s'' & E'' & F'');
        try assumption.
      { rewrite P. discriminate. }
      rewrite E in E''. injection E'' as <-. exact F''.
    + exfalso. destruct F as (r & Er & _).
      unfold ratio, sceneRect in Er.
      rewrite (no_image_no_scene s R P) in Er. discriminate Er.
  - injection E as <-. now apply (fitted_same s).
  - injection E as <-. now apply (fitted_same s).
Qed.

(** X8.  Once the horizontal scale equals the fit ratio times the
    cumulative zoom (as it does after any resize with an image
    loaded), it stays so through every later wheel event, call of
    [zoom], animation tick, resize and mouse crossing, until another
    image is loaded. *)
Theorem scale_tracks_zoom (evs : list event) :
  forall (s : State) (r : result State),
  reachable s -> fitted s ->
  forallb (fun ev => negb (replaces_image ev)) evs = true ->
  run evs s = Some r ->
  exists s', r = Ok s' /\ fitted s'.
Proof.
  induction evs as [|ev evs IH]; intros s r R F NL Run; cbn [run] in Run.
  - injection Run as <-. now exists s.
  - cbn [forallb] in NL. apply andb_true_iff in NL. destruct NL as [N1 N2].
    apply negb_true_iff in N1.
    destruct (deliverable s ev) eqn:D; [|discriminate].
    destruct (step_Inv s ev (reachable_Inv s R) D) as (s1 & E & _).
    rewrite E in Run.
    apply (IH s1 r); try assumption.
    + now apply (reach_step s s1 ev).
    + now apply (step_fitted s s1 ev).
Qed.

Lemma scale_tracks_zoom_witness :
  reachable (state_after resized_midway) /\
  fitted (state_after resized_midway) /\
  forallb (fun ev => negb (replaces_image ev))
    [EvTick (12 # 10); EvWheel wheel_out; EvTick (11 # 10);
     EvResize 1000 500; EvLoadImage NullPixmap; EvFinished] = true /\
  exists r,
    run [EvTick (12 # 10); EvWheel wheel_out; EvTick (11 # 10);
         EvResize 1000 500; EvLoadImage NullPixmap; EvFinished]
        (state_after resized_midway) = Some r /\
    exists s', r = Ok s' /\ fitted s'.
Proof.
  assert (R : reachable (state_after resized_midway)).
  { apply (state_after_reachable resized_midway). vm_compute. reflexivity. }
  assert (F : fitted (state_after resized_midway)).
  { unfold fitted. eexists. split.
    - vm_compute. reflexivity.
    - vm_compute. reflexivity. }
  split; [exact R|]. split; [exact F|]. split; [reflexivity|].
  eexists. split.
  - vm_compute. reflexivity.
  - apply (scale_tracks_zoom
             [EvTick (12 # 10); EvWheel wheel_out; EvTick (11 # 10);
              EvResize 1000 500; EvLoadImage NullPixmap; EvFinished]
             (state_after resized_midway) _ R F eq_refl).
    vm_compute. reflexivity.
Defined.

Lemma step_uniform (s s' : State) (ev : event) :
  Inv s -> uniform (transform s) ->
  dispatch ev s = Ok s' -> uniform (transform s').
Proof.
  unfold uniform. intros I U E.
  destruct ev as [p|e|f|v| |w h| |]; cbn [dispatch] in E.
  - destruct p as [|w h].
    + cbn in E. injection E as <-. exact U.
    + destruct (loadImage_ok s w h (inv_width s I) (inv_height s I))
        as (r & _ & _ & _ & E').
      rewrite E in E'. injection E' as ->.
      destruct (Py.ltb r 1); [|reflexivity].
      match goal with |- context [fitInView ?i ?s1] =>
        destruct (fitInView_identity s1 w h SmoothTransformation eq_refl
                    (inv_width s I) (inv_height s I))
          as (t & -> & _ & E22 & _ & _)
      end.
      cbn [transform upd_transform]. now rewrite E22.
  - injection E as <-.
    destruct (wheelEvent_frame e s) as (_ & -> & _). exact U.
  - injection E as <-. exact U.
  - unfold __on_zoom in E.
    destruct (truediv v (zoom_total s)) as [f|x]; cbn [Py.bind] in E;
      [|discriminate].
    destruct (Py.eqb f (zoom_total s)); injection E as <-.
    + exact U.
    + cbn. now rewrite U.
  - injection E as <-. exact U.
  - unfold resizeEvent in E. cbn [pixmap set_size] in E.
    destruct (pixmap s).
    + destruct (ratio (set_size w h s)) as [r|x]; cbn [Py.bind] in E;
        [|discriminate].
      destruct (truediv (r * zoom_total (set_size w h s))
                        (m11 (set_size w h s))) as [f|x];
        cbn [Py.bind] in E; [|discriminate].
      injection E as <-. cbn. now rewrite U.
    + injection E as <-. exact U.
  - injection E as <-. exact U.
  - injection E as <-. exact U.
Qed.

(** X9.  In every reachable state the view transform scales equally
    in both directions: no handler ever distorts the image. *)
Theorem transform_stays_uniform (s : State) :
  reachable s -> uniform (transform s).
Proof.
  induction 1 as [w h Hw Hh | s s' ev R IH D E].
  - unfold uniform. reflexivity.
  - exact (step_uniform s s' ev (reachable_Inv s R) IH E).
Qed.

Lemma transform_stays_uniform_witness :
  reachable (state_after resized_midway) /\
  uniform (transform (state_after resized_midway)).
Proof.
  assert (R : reachable (state_after resized_midway)).
  { apply (state_after_reachable resized_midway). vm_compute. reflexivity. }
  split; [exact R|].
  exact (transform_stays_uniform (state_after resized_midway) R).
Defined.

(** X10.  With an image loaded, what a resize leaves behind depends on
    the final window size only: resizing to one size and then to a
    second gives the same scale coefficients, offsets and cumulative
    zoom as resizing to the second size at once. *)
Theorem resize_path_independent (s : State) (w1 h1 w2 h2 : Z) :
  reachable s -> pixmap s <> None ->
  (0 < w1)%Z -> (0 < h1)%Z -> (0 < w2)%Z -> (0 < h2)%Z ->
  exists s1 s2 s3,
    dispatch (EvResize w1 h1) s = Ok s1 /\
    dispatch (EvResize w2 h2) s1 = Ok s2 /\
    dispatch (EvResize w2 h2) s = Ok s3 /\
    Qt.m11 (transform s2) == Qt.m11 (transform s3) /\
    Qt.m22 (transform s2) == Qt.m22 (transform s3) /\
    Qt.dx (transform s2) = Qt.dx (transform s3) /\
    Qt.dy (transform s2) = Qt.dy (transform s3) /\
    zoom_total s2 = zoom_total s3.
Proof.
  intros R P W1 H1 W2 H2.
  pose proof (reachable_Inv s R) as [Hz H11 H22 _ _ _ _ Hsc].
  destruct (Hsc P) as [Sw Sh].
  cbn [dispatch].
  set (r1 := Py.min (inject_Z w1 / rw (sceneRect s))
                    (inject_Z h1 / rh (sceneRect s))).
  set (r2 := Py.min (inject_Z w2 / rw (sceneRect s))
                    (inject_Z h2 / rh (sceneRect s))).
  assert (P1 : 0 < r1)
    by (apply min_pos; apply div_pos;
        first [exact Sw | exact Sh | apply inject_Z_pos; assumption]).
  assert (P2 : 0 < r2)
    by (apply min_pos; apply div_pos;
        first [exact Sw | exact Sh | apply inject_Z_pos; assumption]).
  set (f1 := r1 * zoom_total s / m11 s).
  assert (F1 : 0 < f1).
  { apply div_pos; [|exact H11]. apply Qmult_lt_0_compat; lra. }
  assert (E1 : resizeEvent (set_size w1 h1 s)
               = Ok (view_scale f1 f1 (set_size w1 h1 s))).
  { apply (resizeEvent_scaled (set_size w1 h1 s));
      first [exact P | exact Sw | exact Sh | exact H11]. }
  assert (E3 : resizeEvent (set_size w2 h2 s)
               = Ok (view_scale (r2 * zoom_total s / m11 s)
                                (r2 * zoom_total s / m11 s)
                                (set_size w2 h2 s))).
  { apply (resizeEvent_scaled (set_size w2 h2 s));
      first [exact P | exact Sw | exact Sh | exact H11]. }
  assert (E2 : resizeEvent (set_size w2 h2 (view_scale f1 f1
                                              (set_size w1 h1 s)))
               = Ok (view_scale (r2 * zoom_total s / (m11 s * f1))
                                (r2 * zoom_total s / (m11 s * f1))
                                (set_size w2 h2 (view_scale f1 f1
                                                   (set_size w1 h1 s))))).
  { apply (resizeEvent_scaled
             (set_size w2 h2 (view_scale f1 f1 (set_size w1 h1 s))));
      first [exact P | exact Sw | exact Sh | idtac].
    unfold m11. cbn. apply Qmult_lt_0_compat; assumption. }
  eexists. eexists. eexists.
  split; [exact E1|]. split; [exact E2|]. split; [exact E3|].
  unfold m11 in *. cbn.
  split; [field; split; lra|]. split; [field; split; lra|].
  repeat split.
Qed.

Lemma resize_path_independent_witness :
  reachable (state_after second_notch) /\
  pixmap (state_after second_notch) <> None /\
  exists s1 s2 s3,
    dispatch (EvResize 400 300) (state_after second_notch) = Ok s1 /\
    dispatch (EvResize 1000 500) s1 = Ok s2 /\
    dispatch (EvResize 1000 500) (state_after second_notch) = Ok s3 /\
    Qt.m11 (transform s2) == Qt.m11 (transform s3) /\
    Qt.m22 (transform s2) == Qt.m22 (transform s3) /\
    Qt.dx (transform s2) = Qt.dx (transform s3) /\
    Qt.dy (transform s2) = Qt.dy (transform s3) /\
    zoom_total s2 = zoom_total s3.
Proof.
  assert (R : reachable (state_after second_notch)).
  { apply (state_after_reachable second_notch). vm_compute. reflexivity. }
  assert (P : pixmap (state_after second_notch) <> None).
  { vm_compute. discriminate. }
  split; [exact R|]. split; [exact P|].
  apply (resize_path_independent (state_after second_notch)
           400 300 1000 500 R P); lia.
Defined.

(* ================================================================== *)
(** ** A small image and the first resize *)



(* ================================================================== *)
(** ** [enterEvent] and [leaveEvent] *)

Lemma step_anchor_mode (s s' : State) (ev : event) :
  dispatch ev s = Ok s' ->
  transformationAnchor s'
  = anchor_mode_after [ev] (transformationAnchor s).
Proof.
  intro E. destruct ev as [p|e|f|v| |w h| |]; cbn [dispatch] in E;
    cbn [anchor_mode_after].
  - destruct p as [|w h].
    + cbn in E. injection E as <-. reflexivity.
    + apply loadImage_frame in E. destruct E as [t ->]. reflexivity.
  - injection E as <-. apply wheelEvent_frame.
  - injection E as <-. reflexivity.
  - apply on_zoom_frame in E. apply E.
  - injection E as <-. reflexivity.
  - apply resizeEvent_frame in E. apply E.
  - injection E as <-. reflexivity.
  - injection E as <-. reflexivity.
Qed.

Lemma anchor_mode_after_cons (ev : event) (evs : list event)
    (a : ViewportAnchor) :
  anchor_mode_after (ev :: evs) a
  = anchor_mode_after evs (anchor_mode_after [ev] a).
Proof. destruct ev; reflexivity. Qed.

(** X12.  Only [enterEvent] and [leaveEvent] change the transformation
    anchor mode: after any run of events the mode is the one asked for
    by the last enter event (no anchor) or leave event (anchor under
    the mouse), and the initial mode if there was none. *)
Theorem anchor_mode_follows_mouse (evs : list event) :
  forall s s', run evs s = Some (Ok s') ->
  transformationAnchor s'
  = anchor_mode_after evs (transformationAnchor s).
Proof.
  induction evs as [|ev evs IH]; intros s s' R; cbn [run] in R.
  - injection R as <-. reflexivity.
  - destruct (deliverable s ev); [|discriminate].
    destruct (dispatch ev s) as [s1|x] eqn:E; [|discriminate].
    rewrite anchor_mode_after_cons, <- (step_anchor_mode s s1 ev E).
    now apply IH.
Qed.

Lemma anchor_mode_follows_mouse_witness :
  exists s',
    run (second_notch ++ [EvEnter; EvTick (12 # 10); EvLeave;
                          EvResize 400 300])
        (init 800 600) = Some (Ok s') /\
    transformationAnchor s' = AnchorUnderMouse.
Proof.
  eexists. split.
  - vm_compute. reflexivity.
  - apply (anchor_mode_follows_mouse
             (second_notch ++ [EvEnter; EvTick (12 # 10); EvLeave;
                               EvResize 400 300])
             (init 800 600)).
    vm_compute. reflexivity.
Defined.

(* ================================================================== *)
(** ** [loadImage] and a running animation *)

(** X13.  Loading an image never touches the zoom animation or the
    recorded anchor: an animation that was running keeps running with
    the same start and end values, so the ticks the toolkit could
    deliver before the load can still be delivered after it. *)
Theorem loadImage_keeps_animation (p : QPixmap) (s s' : State) :
  loadImage p s = Ok s' ->
  zoom_anim s' = zoom_anim s /\
  zoom_origin s' = zoom_origin s /\
  zoom_scene_origin s' = zoom_scene_origin s /\
  forall v, deliverable s' (EvTick v) = deliverable s (EvTick v).
Proof.
  intro E.
  assert (A : zoom_anim s' = zoom_anim s /\
              zoom_origin s' = zoom_origin s /\
              zoom_scene_origin s' = zoom_scene_origin s).
  { destruct p as [|w h].
    - cbn in E. injection E as <-. repeat split.
    - apply loadImage_frame in E. destruct E as [t ->]. repeat split. }
  destruct A as (A & O & SO).
  split; [exact A|]. split; [exact O|]. split; [exact SO|].
  intro v. cbn [deliverable]. now rewrite A.
Qed.

Lemma loadImage_keeps_animation_witness :
  exists s',
    loadImage (Pixmap 640 480) (state_after second_notch) = Ok s' /\
    zoom_anim s' = zoom_anim (state_after second_notch) /\
    deliverable s' (EvTick (12 # 10)) = true.
Proof.
  destruct (Inv_loadImage (Pixmap 640 480) (state_after second_notch))
    as (s' & E & _).
  { apply reachable_Inv. apply (state_after_reachable second_notch).
    vm_compute. reflexivity. }
  exists s'. split; [exact E|].
  destruct (loadImage_keeps_animation (Pixmap 640 480)
              (state_after second_notch) s' E) as (A & _ & _ & D).
  split; [exact A|]. rewrite D. vm_compute. reflexivity.
Defined.

(** X14.  Right after an image was loaded the cumulative zoom is 1, so
    a wheel event with a negative delta is refused: it prints one line
    and changes nothing else. *)
Theorem wheel_out_after_load_is_refused
    (w h : positive) (e : QWheelEvent) (s s' : State) :
  loadImage (Pixmap w h) s = Ok s' -> (py (angleDelta e) < 0)%Z ->
  wheelEvent e s' = print MsgCannotShrink s'.
Proof.
  intros E A. apply loadImage_frame in E. destruct E as [t ->].
  unfold wheelEvent. apply Z.ltb_lt in A. rewrite A. reflexivity.
Qed.

Lemma wheel_out_after_load_is_refused_witness :
  exists s',
    loadImage (Pixmap 640 480) (state_after second_notch) = Ok s' /\
    (py (angleDelta wheel_out) < 0)%Z /\
    wheelEvent wheel_out s' = print MsgCannotShrink s'.
Proof.
  destruct (Inv_loadImage (Pixmap 640 480) (state_after second_notch))
    as (s' & E & _).
  { apply reachable_Inv. apply (state_after_reachable second_notch).
    vm_compute. reflexivity. }
  exists s'. split; [exact E|]. split; [reflexivity|].
  exact (wheel_out_after_load_is_refused 640 480 wheel_out
           (state_after second_notch) s' E eq_refl).
Defined.

Lemma ratio_raises_iff_scene_empty_witness :
  ratio (init 800 600) = Raise ZeroDivisionError /\
  ratio (state_after loaded) = Ok (Py.min (inject_Z 800 / 1600)
                                          (inject_Z 600 / 1200)).
Proof.
  destruct (ratio_raises_iff_scene_empty (init 800 600)) as [[_ Z0] _].
  destruct (ratio_raises_iff_scene_empty (state_after loaded)) as [_ NZ].
  split.
  - apply Z0. left. reflexivity.
  - rewrite NZ.
    + vm_compute. reflexivity.
    + intros [F|F]; vm_compute in F; discriminate.
Defined.
